(** * GraphCaps: masked attention pooling and the capsule loss engine

    A shallow embedding of [model.py]: the node mask and the masked
    softmax of [Model.forward] (lines 77-78 and 94-97), the squeeze that
    hands the class capsules to the loss (lines 101-106), and
    [Model.calculate_loss] (lines 108-149).

    Numbers.  torch computes in float32; here a finite float is a real
    number ([R]) and rounding and overflow are not followed.  Where the
    code itself produces the special values of IEEE arithmetic (the
    [-np.inf] of [masked_fill], and the NaN a softmax makes of them) the
    values are [fval]: a real, an infinity or NaN.

    Tensors.  A tensor whose rank the code inspects ([shape], [squeeze],
    [sum(dim=2)]) is a [tensor]: a shape and its row-major data.  Tensors
    whose rank is fixed by the way the code uses them are nested lists.

    Errors.  A Python exception is a [Raise]; see [exn]. *)

From Stdlib Require Import Reals List ZArith Bool Lia Lra.
Import ListNotations.
Open Scope R_scope.

(** ** Outcomes *)

(** What a torch call can do other than return a finite tensor.
    [IndexError] and [RuntimeError] are the Python exceptions.
    [NonFinite]: torch returns NaN or an infinity where this embedding
    has only reals (the mean of an empty tensor, a division by zero).
    [OutOfModel]: the operand shapes are outside what is embedded here
    (a capsule tensor of rank above three, operands of different
    shapes, which torch either broadcasts or rejects). *)
Inductive exn : Set := IndexError | RuntimeError | NonFinite | OutOfModel.

Inductive result (A : Type) : Type :=
| Ok (a : A)
| Raise (e : exn).
Arguments Ok {A} a.
Arguments Raise {A} e.

Definition bind {A B : Type} (c : result A) (k : A -> result B) : result B :=
  match c with
  | Ok a => k a
  | Raise e => Raise e
  end.

Notation "x <- c ;; k" := (bind c (fun x => k))
  (at level 61, c at next level, right associativity).

Fixpoint mapM {A B : Type} (f : A -> result B) (l : list A) : result (list B) :=
  match l with
  | [] => Ok []
  | a :: l' => b <- f a ;; bs <- mapM f l' ;; Ok (b :: bs)
  end.

(** ** Lists as tensor axes *)

Fixpoint map2 {A B C : Type} (f : A -> B -> C) (l : list A) (l' : list B) : list C :=
  match l, l' with
  | a :: t, b :: t' => f a b :: map2 f t t'
  | _, _ => []
  end.

Fixpoint map3 {A B C D : Type} (f : A -> B -> C -> D)
  (l : list A) (l' : list B) (l'' : list C) : list D :=
  match l, l', l'' with
  | a :: t, b :: t', c :: t'' => f a b c :: map3 f t t' t''
  | _, _, _ => []
  end.

(** Pointwise operations on matrices (rank-2 tensors). *)
Definition tmap {A B : Type} (f : A -> B) (m : list (list A)) : list (list B) :=
  map (map f) m.

Definition tmap2 {A B C : Type} (f : A -> B -> C)
  (m : list (list A)) (m' : list (list B)) : list (list C) :=
  map2 (map2 f) m m'.

Definition tmap3 {A B C D : Type} (f : A -> B -> C -> D)
  (m : list (list A)) (m' : list (list B)) (m'' : list (list C)) : list (list D) :=
  map3 (map3 f) m m' m''.

Fixpoint same_length2 {A B : Type} (m : list (list A)) (m' : list (list B)) : bool :=
  match m, m' with
  | [], [] => true
  | r :: t, r' :: t' => (length r =? length r')%nat && same_length2 t t'
  | _, _ => false
  end.

(** A pointwise operation of two matrices of the same shape.  With
    different shapes torch broadcasts or raises. *)
Definition ewise2 (f : R -> R -> R) (m m' : list (list R)) : result (list (list R)) :=
  if same_length2 m m' then Ok (tmap2 f m m') else Raise OutOfModel.

(** ** Reductions *)

Definition sum_list (l : list R) : R := fold_right Rplus 0 l.

(** [torch.max] along an axis: an axis of size zero is an [IndexError]. *)
Definition max_list (l : list R) : result R :=
  match l with
  | [] => Raise IndexError
  | x :: t => Ok (fold_left Rmax t x)
  end.

(** The index [torch.max] returns with the maximum: the first one. *)
Fixpoint argmax_from (best : R) (besti i : nat) (l : list R) : nat :=
  match l with
  | [] => besti
  | x :: t => if Rlt_dec best x then argmax_from x i (S i) t
              else argmax_from best besti (S i) t
  end.

Definition argmax (l : list R) : result nat :=
  match l with
  | [] => Raise IndexError
  | x :: t => Ok (argmax_from x 0%nat 1%nat t)
  end.

(** [Tensor.mean]: NaN on an empty tensor. *)
Definition mean (l : list R) : result R :=
  match l with
  | [] => Raise NonFinite
  | _ => Ok (sum_list l / INR (length l))
  end.

(** Sum of the rows of a matrix whose rows have [d] entries: the
    reduction of a [_ x K x d] tensor along its axis 1. *)
Definition sum_rows (d : nat) (m : list (list R)) : list R :=
  fold_right (map2 Rplus) (repeat 0 d) m.

Definition dot (u v : list R) : R := sum_list (map2 Rmult u v).

(** ** Tensors with a shape *)

Record tensor : Type := mkTensor { shape : list nat; data : list R }.

Definition numel (s : list nat) : nat := fold_right Nat.mul 1%nat s.

Definition wf_tensor (t : tensor) : Prop := length (data t) = numel (shape t).

(** [Tensor.squeeze()]: every axis of size one goes. *)
Definition squeeze (t : tensor) : tensor :=
  mkTensor (filter (fun d => negb (d =? 1)%nat) (shape t)) (data t).

(** [shape[i]] of a Python tuple. *)
Definition shape_index (s : list nat) (i : nat) : result nat :=
  match nth_error s i with
  | Some d => Ok d
  | None => Raise IndexError
  end.

Fixpoint chunks (count size : nat) (l : list R) : list (list R) :=
  match count with
  | O => []
  | S c => firstn size l :: chunks c size (skipn size l)
  end.

(** The rows of a matrix and the matrices of a rank-3 tensor, from
    row-major data. *)
Definition rows2 (k d : nat) (l : list R) : list (list R) := chunks k d l.

Definition rows3 (b k d : nat) (l : list R) : list (list (list R)) :=
  map (rows2 k d) (chunks b (k * d) l).

(** ** Floats with infinities and NaN *)

Inductive fval : Type :=
| Fin (r : R)
| PInf
| NInf
| NaN.

Definition fexp (x : fval) : fval :=
  match x with
  | Fin r => Fin (exp r)
  | PInf => PInf
  | NInf => Fin 0
  | NaN => NaN
  end.

Definition fadd (x y : fval) : fval :=
  match x, y with
  | NaN, _ | _, NaN => NaN
  | Fin a, Fin b => Fin (a + b)
  | PInf, NInf | NInf, PInf => NaN
  | PInf, _ | _, PInf => PInf
  | NInf, _ | _, NInf => NInf
  end.

(** The infinity of the sign of [a], NaN for zero. *)
Definition inf_of_sign (a : R) (pos neg : fval) : fval :=
  if Req_dec_T a 0 then NaN else if Rlt_dec 0 a then pos else neg.

Definition fmul (x y : fval) : fval :=
  match x, y with
  | NaN, _ | _, NaN => NaN
  | Fin a, Fin b => Fin (a * b)
  | Fin a, PInf | PInf, Fin a => inf_of_sign a PInf NInf
  | Fin a, NInf | NInf, Fin a => inf_of_sign a NInf PInf
  | PInf, PInf | NInf, NInf => PInf
  | PInf, NInf | NInf, PInf => NInf
  end.

(** Signed zeros are not told apart: a nonzero real over zero takes the
    sign of the numerator. *)
Definition fdiv (x y : fval) : fval :=
  match x, y with
  | NaN, _ | _, NaN => NaN
  | Fin a, Fin b => if Req_dec_T b 0 then inf_of_sign a PInf NInf else Fin (a / b)
  | Fin _, _ => Fin 0
  | PInf, Fin b => if Rlt_dec b 0 then NInf else PInf
  | NInf, Fin b => if Rlt_dec b 0 then PInf else NInf
  | _, _ => NaN
  end.

Definition fsum (l : list fval) : fval := fold_right fadd (Fin 0) l.

(** [F.softmax] along one axis: [exp(x_i) / sum_j exp(x_j)]. *)
Definition softmax (l : list fval) : list fval :=
  let e := map fexp l in
  let s := fsum e in
  map (fun x => fdiv x s) e.

(** ** The model object *)

(** The options of [args] this core reads. *)
Record Args : Type := mkArgs {
  node_embedding_size : nat;
  num_gcn_channels : nat;
  num_gcn_layers : nat;
  num_graph_capsules : nat;
  graph_embedding_size : nat;
  lambda_val : R;
  reg_scale : R
}.

(** [nn.Linear]: [weight] has one row per output feature. *)
Record Linear : Type := mkLinear {
  in_features : nat;
  weight : list (list R);
  bias : list R
}.

Definition linear (l : Linear) (x : list R) : result (list R) :=
  if (length x =? in_features l)%nat
  then Ok (map2 (fun w b => dot w x + b) (weight l) (bias l))
  else Raise RuntimeError.

(** [self].  [Layers] stands for the modules whose classes live in
    attention.py and layer.py (embedding tables, GCN layers, attention
    scorer, the two capsule layers); [training] is the mode flag of
    [nn.Module], which the dropout of [forward] obeys. *)
Record Model (Layers : Type) : Type := mkModel {
  args : Args;
  num_features : list nat;
  num_classes : nat;
  recon_dim : nat;
  gcn_input_dim : nat;
  layers : Layers;
  reconstruction_layer_1 : Linear;
  reconstruction_layer_2 : Linear;
  training : bool
}.
Arguments args {Layers} _.
Arguments num_features {Layers} _.
Arguments num_classes {Layers} _.
Arguments recon_dim {Layers} _.
Arguments gcn_input_dim {Layers} _.
Arguments layers {Layers} _.
Arguments reconstruction_layer_1 {Layers} _.
Arguments reconstruction_layer_2 {Layers} _.
Arguments training {Layers} _.

Definition epsilon : R := 1e-11.

Definition relu (x : R) : R := Rmax 0 x.
Definition sigmoid (x : R) : R := 1 / (1 + exp (- x)).

(** ** [Model.forward]: node mask and masked attention (lines 77-97) *)

(** [masks = torch.max(adj, dim=-1, keepdim=True)[0]]: one value per
    node, the largest entry of its adjacency row.  The reduced axis
    must not be empty, also where a graph has no row at all. *)
Definition node_masks (adj : list (list (list R))) : result (list (list R)) :=
  mapM (fun graph => match graph with
                     | [] => Raise IndexError
                     | _ :: _ => mapM max_list graph
                     end) adj.

(** [number_of_nodes = torch.sum(masks, dim=1, ...)]: one value per graph. *)
Definition number_of_nodes (masks : list (list R)) : list R :=
  map sum_list masks.

(** [attn.masked_fill(masks.eq(0), -np.inf)]. *)
Definition masked_fill (attn masks : list (list R)) : result (list (list fval)) :=
  if same_length2 attn masks
  then Ok (tmap2 (fun a m => if Req_dec_T m 0 then NInf else Fin a) attn masks)
  else Raise OutOfModel.

(** [F.softmax(..., dim=1)]: along the node axis of each graph. *)
Definition attention_weights (attn masks : list (list R)) : result (list (list fval)) :=
  filled <- masked_fill attn masks ;;
  Ok (map softmax filled).

(** [hidden_representations * attn * number_of_nodes], on a
    [B x N x C x D] tensor, [attn] one weight per node and
    [number_of_nodes] one value per graph. *)
Definition reweight (hidden : list (list (list (list R))))
  (attn : list (list fval)) (non : list R) : list (list (list (list fval))) :=
  map3 (fun h_g a_g n =>
          map2 (fun h_n a => tmap (fun x => fmul (fmul (Fin x) a) (Fin n)) h_n) h_g a_g)
       hidden attn non.

(** What the pooling stage of [forward] computes. *)
Record pooled : Type := mkPooled {
  p_masks : list (list R);
  p_number_of_nodes : list R;
  p_attn : list (list fval);
  p_hidden : list (list (list (list fval)))
}.

(** Lines 77-78 and 94-97.  [attention] is [self.attention], a module
    of attention.py: from the flattened node capsules ([B x N x _]) to
    one logit per node. *)
Definition forward_pool
  (attention : list (list (list R)) -> list (list R))
  (adj : list (list (list R)))
  (hidden_representations : list (list (list (list R)))) : result pooled :=
  masks <- node_masks adj ;;
  let non := number_of_nodes masks in
  let attn := attention (tmap (@concat R) hidden_representations) in
  attn <- attention_weights attn masks ;;
  Ok (mkPooled masks non attn (reweight hidden_representations attn non)).

(** ** [Model.calculate_loss] (lines 108-149) *)

(** A Python index into an axis of [size] entries: negative indices
    count from the end. *)
Definition wrap_index (size : nat) (i : Z) : result nat :=
  if ((0 <=? i) && (i <? Z.of_nat size))%Z then Ok (Z.to_nat i)
  else if ((- Z.of_nat size <=? i) && (i <? 0))%Z then Ok (Z.to_nat (i + Z.of_nat size))
  else Raise IndexError.

Fixpoint set_nth (i : nat) (x : R) (l : list R) : list R :=
  match l, i with
  | [], _ => []
  | _ :: t, O => x :: t
  | y :: t, S i' => y :: set_nth i' x t
  end.

(** [T[torch.arange(len(T)), target] = v]. *)
Definition index_put (T : list (list R)) (target : list Z) (v : R) : result (list (list R)) :=
  if (length target =? length T)%nat
  then mapM (fun '(row, t) => i <- wrap_index (length row) t ;; Ok (set_nth i v row))
            (combine T target)
  else Raise OutOfModel.

Definition zeros (b k : nat) : list (list R) := repeat (repeat 0 k) b.

Definition m_plus : R := 0.9.
Definition m_minus : R := 0.1.

(** [x / y] where [y] may be zero. *)
Definition divide (x y : R) : result R :=
  if Req_dec_T y 0 then Raise NonFinite else Ok (x / y).

(** [(capsule_input ** 2).sum(dim=2)] needs an axis 2: a tensor of rank
    below three raises IndexError.  A tensor of rank three is read as
    nested lists, with the size of its last axis; a higher rank is
    outside this embedding. *)
Definition rank3_view (t : tensor) : result (nat * list (list (list R))) :=
  match shape t with
  | [b; k; d] => Ok (d, rows3 b k d (data t))
  | _ :: _ :: _ :: _ :: _ => Raise OutOfModel
  | _ => Raise IndexError
  end.

Section Loss.

(** The module constant [epsilon] and the literal [1e-5] of line 137. *)
Variables (eps neg_threshold : R).

Context {Layers : Type}.

(** Lines 137-146, from the decoder output and the targets. *)
Definition reconstruction_loss_of
  (reconstruction_output reconstructs : list (list R)) : result R :=
  let neg_indicator :=
    tmap (fun x => if Rlt_dec x neg_threshold then 1 else 0) reconstructs in
  let pos_indicator := tmap (fun x => 1 - x) neg_indicator in
  reconstructs_max <- mapM max_list reconstructs ;;
  reconstruct_value <-
    mapM (fun '(row, m) => mapM (fun x => divide x (m + eps)) row)
         (combine reconstructs reconstructs_max) ;;
  diff <- ewise2 (fun o v => (o - v) ^ 2) reconstruction_output reconstruct_value ;;

  neg_loss <- mapM max_list (tmap2 Rmult diff neg_indicator) ;;
  pos_loss <- mapM max_list (tmap2 Rmult diff pos_indicator) ;;
  mean (map2 Rplus pos_loss neg_loss).

Definition calculate_loss_at (self : Model Layers) (args : Args)
  (capsule_input : tensor) (target : list Z) (reconstructs : list (list R))
  : result (R * R * R * list nat) :=
  let input_shape := shape capsule_input in
  batch_size <- shape_index input_shape 0 ;;
  num_class <- shape_index input_shape 1 ;;

  let capsule_input := squeeze capsule_input in
  view <- rank3_view capsule_input ;;
  let '(d, capsule_input) := view in
  let v_mag := tmap (fun v => sqrt (sum_list (map (fun x => x ^ 2) v))) capsule_input in
  pred <- mapM argmax v_mag ;;

  let max_l := tmap (fun v => Rmax (m_plus - v) 0 ^ 2) v_mag in
  let max_r := tmap (fun v => Rmax (v - m_minus) 0 ^ 2) v_mag in

  T_c <- index_put (zeros batch_size num_class) target 1 ;;
  L_c <- (if same_length2 T_c v_mag
          then Ok (tmap3 (fun t l r => t * l + lambda_val args * (1 - t) * r)
                         T_c max_l max_r)
          else Raise OutOfModel) ;;
  let L_c := map sum_list L_c in
  margin_loss <- mean L_c ;;

  let capsule_masked := tmap2 (fun v t => map (fun x => x * t) v) capsule_input T_c in
  let capsule_masked := map (sum_rows d) capsule_masked in

  h <- mapM (linear (reconstruction_layer_1 self)) capsule_masked ;;
  let reconstruction_output := tmap relu h in
  o <- mapM (linear (reconstruction_layer_2 self)) reconstruction_output ;;
  let reconstruction_output := tmap sigmoid o in

  reconstruction_loss <- reconstruction_loss_of reconstruction_output reconstructs ;;

  let loss := margin_loss + reconstruction_loss * reg_scale args in
  Ok (loss, margin_loss, reconstruction_loss, pred).

End Loss.

Definition calculate_loss {Layers : Type} :=
  @calculate_loss_at epsilon 1e-5 Layers.

(** ** [Model.forward]: from the class capsules to the loss (lines 102-106) *)

(** [class_capsule_output] is what [self.class_capsule], a module of
    layer.py, returns. *)
Definition forward_loss {Layers : Type} (self : Model Layers)
  (class_capsule_output : tensor) (label : list Z) (reconstructs : list (list R))
  : result (tensor * R * R * R * list Z * list nat) :=
  let args := args self in
  let class_capsule_output := squeeze class_capsule_output in
  r <- calculate_loss self args class_capsule_output label reconstructs ;;
  let '(loss, margin_loss, reconstruction_loss, pred) := r in
  Ok (class_capsule_output, loss, margin_loss, reconstruction_loss, label, pred).

(** ** Names for the intermediate tensors *)

(** One entry of [masked_fill]. *)
Definition fill (a m : R) : fval := if Req_dec_T m 0 then NInf else Fin a.

(** [exp] of a filled logit, as a real. *)
Definition wreal (x : fval) : R :=
  match x with
  | Fin a => exp a
  | _ => 0
  end.

(** [v_mag], [L_c] before the sum, [capsule_masked] and the decoder
    output, as [calculate_loss] computes them. *)
Definition norms (caps : list (list (list R))) : list (list R) :=
  tmap (fun v => sqrt (sum_list (map (fun x => x ^ 2) v))) caps.

Definition margin_terms (lam : R) (T_c v_mag : list (list R)) : list (list R) :=
  tmap3 (fun t l r => t * l + lam * (1 - t) * r) T_c
        (tmap (fun v => Rmax (m_plus - v) 0 ^ 2) v_mag)
        (tmap (fun v => Rmax (v - m_minus) 0 ^ 2) v_mag).

Definition masked_capsules (d : nat) (caps : list (list (list R)))
  (T_c : list (list R)) : list (list R) :=
  map (sum_rows d) (tmap2 (fun v t => map (fun x => x * t) v) caps T_c).

Definition decoder {Layers : Type} (self : Model Layers) (x : list (list R))
  : result (list (list R)) :=
  h <- mapM (linear (reconstruction_layer_1 self)) x ;;
  o <- mapM (linear (reconstruction_layer_2 self)) (tmap relu h) ;;
  Ok (tmap sigmoid o).

(** The class capsules as the loss sees them: the squeezed tensor, as
    [B x K x D] nested lists. *)
Definition capsules_of (t : tensor) : list (list (list R)) :=
  match shape (squeeze t) with
  | [b; k; d] => rows3 b k d (data t)
  | _ => []
  end.

(** ** The specification's notions *)

(** *** Node mask and attention *)

(** A node counts as valid where the code tests [masks.eq(0)]: its mask
    is not zero. *)
Definition is_valid (m : R) : bool := if Req_dec_T m 0 then false else true.

Definition count_valid (masks_g : list R) : nat := length (filter is_valid masks_g).

(** The attention weights of the valid nodes of one graph. *)
Definition valid_weights (masks_g : list R) (attn_g : list fval) : list fval :=
  map snd (filter (fun mw => is_valid (fst mw)) (combine masks_g attn_g)).

(** *** Margin loss *)

(** [T_c = one-hot(label)]. *)
Definition one_hot (num_class : nat) (label : Z) : list R :=
  map (fun c => if (Z.of_nat c =? label)%Z then 1 else 0) (seq 0 num_class).

(** [T_c * max(0, m+ - v_mag)^2 + lambda * (1 - T_c) * max(0, v_mag - m-)^2]. *)
Definition margin_class (lam T v : R) : R :=
  T * Rmax 0 (0.9 - v) ^ 2 + lam * (1 - T) * Rmax 0 (v - 0.1) ^ 2.

(** Sum over classes. *)
Definition margin_graph (lam : R) (v_mag_g : list R) (label : Z) : R :=
  sum_list (map2 (margin_class lam) (one_hot (length v_mag_g) label) v_mag_g).

(** Mean over batch. *)
Definition margin_loss_spec (lam : R) (v_mag : list (list R)) (labels : list Z) : R :=
  sum_list (map2 (margin_graph lam) v_mag labels) / INR (length v_mag).

(** The margins are met: in every graph the norm of the true class is
    at least 0.9 and the norm of every other class at most 0.1. *)
Definition margins_met (v_mag : list (list R)) (target : list Z) : Prop :=
  Forall2 (fun v_g label =>
             forall c v, nth_error v_g c = Some v ->
                         if (Z.of_nat c =? label)%Z then 0.9 <= v else v <= 0.1)
          v_mag target.

(** *** Reconstruction loss *)

Section ReconstructionSpec.

Variables (eps neg_threshold : R).

(** The largest entry of a target vector. *)
Definition maximum (r : list R) : R :=
  match r with
  | [] => 0
  | x :: t => fold_right Rmax x t
  end.

(** The largest of a set of errors (none is negative; an empty set has
    no error, 0). *)
Definition max_error (errs : list R) : R := fold_right Rmax 0 errs.

(** The target dimensions are split by their original value. *)
Definition is_negative (x : R) : bool :=
  if Rlt_dec x neg_threshold then true else false.

(** The errors of the dimensions that [p] selects. *)
Definition select (p : R -> bool) (r errs : list R) : list R :=
  map snd (filter (fun xe => p (fst xe)) (combine r errs)).

(** One graph: normalise the target by its own maximum (plus epsilon),
    take the squared errors, and add the largest error of the negative
    set to the largest error of the positive set. *)
Definition recon_graph (out r : list R) : R :=
  let value := map (fun x => x / (maximum r + eps)) r in
  let errs := map2 (fun o v => (o - v) ^ 2) out value in
  max_error (select is_negative r errs)
  + max_error (select (fun x => negb (is_negative x)) r errs).

(** Mean over the batch. *)
Definition reconstruction_loss_spec (outs reconstructs : list (list R)) : R :=
  sum_list (map2 recon_graph outs reconstructs) / INR (length reconstructs).

End ReconstructionSpec.

(** A two-layer network with ReLU hidden and sigmoid output. *)
Definition affine (l : Linear) (x : list R) : list R :=
  map2 (fun w b => dot w x + b) (weight l) (bias l).

Definition decode {Layers : Type} (self : Model Layers) (capsule : list R) : list R :=
  map sigmoid
      (affine (reconstruction_layer_2 self)
              (map relu (affine (reconstruction_layer_1 self) capsule))).

(** The capsule of the true class: what masking out every other class
    and summing over the classes leaves. *)
Definition true_capsule (caps_g : list (list R)) (label : Z) : list R :=
  nth (Z.to_nat label) caps_g [].

(** The targets of a batch, each multiplied by [c]. *)
Definition rescale (c : R) (reconstructs : list (list R)) : list (list R) :=
  tmap (Rmult c) reconstructs.

(** ** Batches the loss is meant for *)

(** A matrix of [b] rows of [r] entries. *)
Definition shape2 {A : Type} (b r : nat) (m : list (list A)) : Prop :=
  length m = b /\ Forall (fun row => length row = r) m.

Definition label_in_range (k : nat) (t : Z) : Prop :=
  (- Z.of_nat k <= t < Z.of_nat k)%Z.

(** A linear layer whose weight and bias agree on the output size. *)
Definition wf_linear (l : Linear) (n_out : nat) : Prop :=
  length (weight l) = n_out /\ length (bias l) = n_out.

(** [b >= 2] graphs, [k >= 2] classes, capsules of [d <> 1] entries,
    labels that index a class, a decoder from [d] through [hid] to
    [r >= 1] outputs, and one target of [r] entries, none negative, per
    graph. *)
Record batch_ok {Layers : Type} (self : Model Layers) (b k d hid r : nat)
  (t : tensor) (target : list Z) (reconstructs : list (list R)) : Prop := {
  ok_shape : shape t = [b; k; d];
  ok_batch : (2 <= b)%nat;
  ok_classes : (2 <= k)%nat;
  ok_dim : d <> 1%nat;
  ok_data : wf_tensor t;
  ok_labels : length target = b;
  ok_range : Forall (label_in_range k) target;
  ok_layer_1 : wf_linear (reconstruction_layer_1 self) hid;
  ok_in_1 : in_features (reconstruction_layer_1 self) = d;
  ok_layer_2 : wf_linear (reconstruction_layer_2 self) r;
  ok_in_2 : in_features (reconstruction_layer_2 self) = hid;
  ok_recon_dim : r <> 0%nat;
  ok_targets : shape2 b r reconstructs;
  ok_targets_pos : Forall (Forall (fun x => 0 <= x)) reconstructs
}.

(** ** Example inputs *)

(** Two nodes joined by an edge of weight 2. *)
Definition adj_weighted : list (list (list R)) := [[[0; 2]; [2; 0]]].

(** One graph of three nodes, the third without an edge. *)
Definition adj_isolated : list (list (list R)) := [[[0; 1; 0]; [1; 0; 0]; [0; 0; 0]]].

Definition hidden_ones : list (list (list (list R))) := [[[[1]]; [[1]]; [[1]]]].

Definition zero_linear (n_in n_out : nat) : Linear :=
  mkLinear n_in (repeat (repeat 0 n_in) n_out) (repeat 0 n_out).

Definition example_args : Args := mkArgs 2 2 1 2 2 0.5 0.1.

(** One feature channel, two classes, three reconstruction dimensions;
    the decoder is [Linear(2, 1)] then [Linear(1, 3)], all weights 0. *)
Definition example_model : Model unit :=
  mkModel unit example_args [3%nat] 2 3 2 tt (zero_linear 2 1) (zero_linear 1 3) false.

(** Two graphs, two classes, capsules of two entries. *)
Definition example_capsules : tensor :=
  mkTensor [2; 2; 2]%nat [1; 0; 0; 0; 0; 0; 0; 1].

Definition example_target : list Z := [0; 1]%Z.

Definition example_reconstructs : list (list R) := [[1; 0; 0.5]; [0; 2; 1]].

(** The class capsules of a batch of one graph with two classes. *)
Definition scenario_class_capsules : tensor :=
  mkTensor [1; 2; 2]%nat [0.3; 0; 0; 0.2].

Definition args_lambda_zero : Args := mkArgs 2 2 1 2 2 0 0.1.

(** Every capsule of norm 1. *)
Definition long_capsules : tensor :=
  mkTensor [2; 2; 2]%nat [1; 0; 1; 0; 1; 0; 1; 0].

(** The example capsules with other capsules for the classes that are
    not the labels. *)
Definition other_capsules : tensor :=
  mkTensor [2; 2; 2]%nat [1; 0; 0.5; 0.5; 0.3; 0; 0; 1].

(** Targets whose last entry passes the 1e-5 threshold when multiplied by 100. *)
Definition scaling_reconstructs : list (list R) := [[2; 1; 1e-6]; [2; 1; 1e-6]].

(** ** [Model.__init__] (lines 26-65) *)

(** [nn.Linear(n_in, n_out)]: [n_out] rows of [n_in] weights and [n_out]
    biases.  torch draws the initial values at random; here they are
    given, [w i j] and [b i]. *)
Definition nn_Linear (n_in n_out : nat) (w : nat -> nat -> R) (b : nat -> R) : Linear :=
  mkLinear n_in (map (fun i => map (w i) (seq 0 n_in)) (seq 0 n_out))
           (map b (seq 0 n_out)).

(** The modules whose classes are not in model.py, each by the
    arguments [__init__] constructs it with: [nn.Embedding(d, size)],
    [Attention(size)], [GCN(in, out)] and the two
    [SecondaryCapsuleLayer]s. *)
Record Modules : Type := mkModules {
  mod_embeddings : list (nat * nat);
  mod_attention : nat;
  mod_gcn_layers : list (nat * nat);
  mod_graph_capsule : nat * nat * nat * nat;
  mod_class_capsule : nat * nat * nat * nat
}.

(** Lines 47-53: one layer from the input width, then
    [range(num_gcn_layers - 1)] more. *)
Definition _init_gcn (args : Args) (gcn_input_dim : nat) : list (nat * nat) :=
  let hidden_dim := (node_embedding_size args * num_gcn_channels args)%nat in
  (gcn_input_dim, hidden_dim)
    :: repeat (hidden_dim, hidden_dim) (num_gcn_layers args - 1).

(** Lines 55-61. *)
Definition _init_capsules (args : Args) (num_classes : nat)
  : (nat * nat * nat * nat) * (nat * nat * nat * nat) :=
  (((num_gcn_channels args * num_gcn_layers args)%nat, node_embedding_size args,
    num_graph_capsules args, graph_embedding_size args),
   (num_graph_capsules args, graph_embedding_size args,
    num_classes, graph_embedding_size args)).

(** Lines 63-65; [int((gcn_input_dim * 2) / 3)] rounds down. *)
Definition _init_reconstruction_layers (args : Args) (gcn_input_dim recon_dim : nat)
  (w1 : nat -> nat -> R) (b1 : nat -> R) (w2 : nat -> nat -> R) (b2 : nat -> R)
  : Linear * Linear :=
  (nn_Linear (graph_embedding_size args) ((gcn_input_dim * 2) / 3) w1 b1,
   nn_Linear ((gcn_input_dim * 2) / 3) recon_dim w2 b2).

(** Lines 26-45.  A new [nn.Module] is in training mode. *)
Definition Model_init (args : Args) (num_features : list nat)
  (num_classes recon_dim : nat)
  (w1 : nat -> nat -> R) (b1 : nat -> R) (w2 : nat -> nat -> R) (b2 : nat -> R)
  : Model Modules :=
  let embeddings := map (fun d => (d, node_embedding_size args)) num_features in
  let gcn_input_dim := (node_embedding_size args * length num_features)%nat in
  let attention :=
    (node_embedding_size args * num_gcn_channels args * num_gcn_layers args)%nat in
  let gcn_layers := _init_gcn args gcn_input_dim in
  let '(graph_capsule, class_capsule) := _init_capsules args num_classes in
  let '(layer_1, layer_2) :=
    _init_reconstruction_layers args gcn_input_dim recon_dim w1 b1 w2 b2 in
  mkModel Modules args num_features num_classes recon_dim gcn_input_dim
          (mkModules embeddings attention gcn_layers graph_capsule class_capsule)
          layer_1 layer_2 true.

(** The widths [forward] makes of these modules.  Line 84 concatenates
    one embedding per feature channel; lines 85-94 concatenate the
    output of every GCN layer, a [GCN(in, out)] taken to give [out]
    features per node, and flatten them for the attention scorer. *)
Definition features_width (embeddings : list (nat * nat)) : nat :=
  list_sum (map snd embeddings).

Definition hidden_width (gcn_layers : list (nat * nat)) : nat :=
  list_sum (map snd gcn_layers).

(** ** Python's negative indices *)

(** The label that [-j] stands for in an axis of [k] classes. *)
Definition from_end (k : nat) (t : Z) : Z :=
  if (t <? 0)%Z then (t + Z.of_nat k)%Z else t.

(** * Proofs *)

(** ** The error monad and lists *)

Lemma bind_Ok {A B : Type} (c : result A) (k : A -> result B) (b : B) :
  bind c k = Ok b -> exists a, c = Ok a /\ k a = Ok b.
Proof.
  destruct c as [a | e]; simpl; intros H; [exists a; auto | discriminate].
Qed.

Ltac bind_inv H :=
  let a := fresh "a" in
  let Ha := fresh "E" in
  apply bind_Ok in H; destruct H as (a & Ha & H).

Lemma mapM_Forall2 {A B : Type} (f : A -> result B) (l : list A) (l' : list B) :
  mapM f l = Ok l' <-> Forall2 (fun a b => f a = Ok b) l l'.
Proof.
  revert l'; induction l as [| a l IH]; intros l'; simpl.
  - split; intros H; [injection H as <-; constructor | inversion H; reflexivity].
  - split; intros H.
    + bind_inv H. bind_inv H. injection H as <-.
      constructor; [assumption | now apply IH].
    + inversion H as [| ? b ? bs Hab Hrest]; subst.
      rewrite Hab; simpl. apply IH in Hrest. rewrite Hrest. reflexivity.
Qed.

(** The masks of a batch, graph by graph. *)
Lemma node_masks_rows (adj : list (list (list R))) (masks : list (list R)) :
  node_masks adj = Ok masks ->
  Forall2 (fun graph masks_g => mapM max_list graph = Ok masks_g) adj masks.
Proof.
  unfold node_masks. rewrite mapM_Forall2.
  induction 1 as [| graph masks_g adj masks Hg _ IH]; constructor; [| exact IH].
  destruct graph; [discriminate | exact Hg].
Qed.

Lemma mapM_In {A B : Type} (f : A -> result B) (l : list A) (l' : list B) :
  mapM f l = Ok l' -> forall b, In b l' -> exists a, In a l /\ f a = Ok b.
Proof.
  rewrite mapM_Forall2. induction 1 as [| a b l l' Hab _ IH]; intros y Hy;
    simpl in *; [contradiction |].
  destruct Hy as [<- | Hy]; [exists a; auto |].
  destruct (IH y Hy) as (x & Hx & Hfx). exists x; auto.
Qed.

Lemma mapM_total {A B : Type} (f : A -> result B) (P : B -> Prop) (l : list A) :
  Forall (fun a => exists b, f a = Ok b /\ P b) l ->
  exists l', mapM f l = Ok l' /\ length l' = length l /\ Forall P l'.
Proof.
  induction 1 as [| a l (b & Hb & HP) _ (l' & Hl' & Hlen & HPl')]; simpl.
  - exists []. auto.
  - exists (b :: l'). rewrite Hb; simpl. rewrite Hl'; simpl. auto.
Qed.

Lemma length_map2 {A B C : Type} (f : A -> B -> C) (l : list A) (l' : list B) :
  length (map2 f l l') = Nat.min (length l) (length l').
Proof.
  revert l'; induction l as [| a l IH]; intros [| b l']; simpl; auto.
Qed.

Lemma Forall_map2 {A B C : Type} (P : C -> Prop) (Q : A -> Prop) (Q' : B -> Prop)
  (f : A -> B -> C) (l : list A) (l' : list B) :
  (forall a b, Q a -> Q' b -> P (f a b)) ->
  Forall Q l -> Forall Q' l' -> Forall P (map2 f l l').
Proof.
  intros Hf Hl. revert l'. induction Hl as [| a l Ha _ IH]; intros l' Hl';
    [constructor |].
  destruct Hl' as [| b l' Hb Hl']; simpl; constructor; auto.
Qed.

Lemma Forall_map3 {A B C D : Type} (P : D -> Prop) (Q : A -> Prop) (Q' : B -> Prop)
  (Q'' : C -> Prop) (f : A -> B -> C -> D) (l : list A) (l' : list B) (l'' : list C) :
  (forall a b c, Q a -> Q' b -> Q'' c -> P (f a b c)) ->
  Forall Q l -> Forall Q' l' -> Forall Q'' l'' -> Forall P (map3 f l l' l'').
Proof.
  intros Hf Hl. revert l' l''. induction Hl as [| a l Ha _ IH]; intros l' l'' Hl' Hl'';
    [constructor |].
  destruct Hl' as [| b l' Hb Hl']; [constructor |].
  destruct Hl'' as [| c l'' Hc Hl'']; simpl; constructor; auto.
Qed.

Lemma Forall_tmap {A B : Type} (P : B -> Prop) (f : A -> B) (m : list (list A)) :
  (forall a, P (f a)) -> Forall (Forall P) (tmap f m).
Proof.
  intros Hf. unfold tmap. apply Forall_map, Forall_forall. intros row _.
  apply Forall_map, Forall_forall. intros a _. apply Hf.
Qed.

Lemma tmap_tmap {A B C : Type} (f : B -> C) (g : A -> B) (m : list (list A)) :
  tmap f (tmap g m) = tmap (fun a => f (g a)) m.
Proof.
  unfold tmap. rewrite map_map. apply map_ext. intros row. apply map_map.
Qed.

Lemma map3_map_map {A B C D E : Type} (f : A -> C -> D -> E) (g : B -> C) (h : B -> D)
  (l : list A) (l' : list B) :
  map3 f l (map g l') (map h l') = map2 (fun a b => f a (g b) (h b)) l l'.
Proof.
  revert l'; induction l as [| a l IH]; intros [| b l']; simpl; auto.
  now rewrite IH.
Qed.

Lemma Forall2_nth_error {A B : Type} (P : A -> B -> Prop) (l : list A) (l' : list B) :
  Forall2 P l l' ->
  forall i a b, nth_error l i = Some a -> nth_error l' i = Some b -> P a b.
Proof.
  induction 1 as [| x y l l' Hxy _ IH]; intros [| i] a b Ha Hb; simpl in *;
    try discriminate.
  - injection Ha as <-. injection Hb as <-. exact Hxy.
  - eapply IH; eassumption.
Qed.

Lemma nth_error_map3 {A B C D : Type} (f : A -> B -> C -> D)
  (l : list A) (l' : list B) (l'' : list C) (i : nat) (d : D) :
  nth_error (map3 f l l' l'') i = Some d ->
  exists a b c, nth_error l i = Some a /\ nth_error l' i = Some b /\
                nth_error l'' i = Some c /\ d = f a b c.
Proof.
  revert l' l'' i; induction l as [| a l IH]; intros [| b l'] [| c l''] [| i] H;
    simpl in *; try discriminate.
  - injection H as <-. exists a, b, c. auto.
  - apply IH in H. exact H.
Qed.

Lemma same_length2_length {A B : Type} (m : list (list A)) (m' : list (list B)) :
  same_length2 m m' = true -> length m = length m'.
Proof.
  revert m'; induction m as [| r m IH]; intros [| r' m'] H; simpl in *;
    try discriminate; auto.
  apply andb_prop in H. f_equal. apply IH. tauto.
Qed.

Lemma shape2_tmap {A B : Type} (f : A -> B) (b r : nat) (m : list (list A)) :
  shape2 b r m -> shape2 b r (tmap f m).
Proof.
  intros [Hb Hr]. unfold tmap. split; [now rewrite length_map |].
  apply Forall_map. eapply Forall_impl; [| exact Hr].
  intros row Hrow. now rewrite length_map.
Qed.

Lemma shape2_tmap2 {A B C : Type} (f : A -> B -> C) (b r : nat)
  (m : list (list A)) (m' : list (list B)) :
  shape2 b r m -> shape2 b r m' -> shape2 b r (tmap2 f m m').
Proof.
  intros [Hb Hr] [Hb' Hr']. unfold tmap2. split.
  - rewrite length_map2. lia.
  - eapply Forall_map2; [| exact Hr | exact Hr'].
    intros row row' H H'. simpl in *. rewrite length_map2. lia.
Qed.

Lemma shape2_same_length2 {A B : Type} (b r : nat)
  (m : list (list A)) (m' : list (list B)) :
  shape2 b r m -> shape2 b r m' -> same_length2 m m' = true.
Proof.
  intros [Hb Hr] [Hb' Hr']. subst b.
  revert m' Hb' Hr'. induction Hr as [| row m Hrow _ IH]; intros [| row' m'] Hb' Hr';
    simpl in *; try discriminate; [reflexivity |].
  apply andb_true_intro. split.
  - apply Nat.eqb_eq. apply Forall_inv in Hr'. lia.
  - apply IH; [lia | now apply Forall_inv_tail in Hr'].
Qed.

(** ** Sums, maxima and means *)

Lemma sum_list_nonneg (l : list R) : Forall (fun e => 0 <= e) l -> 0 <= sum_list l.
Proof. induction 1; simpl; lra. Qed.

Lemma sum_list_zero (l : list R) : Forall (fun e => e = 0) l -> sum_list l = 0.
Proof. induction 1; simpl; lra. Qed.

Lemma sum_list_zero_inv (l : list R) :
  Forall (fun x => 0 <= x) l -> sum_list l = 0 -> Forall (fun x => x = 0) l.
Proof.
  induction 1 as [| x l Hx Hl IH]; simpl; intros Hs; constructor.
  - pose proof (sum_list_nonneg l Hl). lra.
  - apply IH. pose proof (sum_list_nonneg l Hl). lra.
Qed.

Lemma Rmax_fold_ge (t : list R) (x : R) : x <= fold_left Rmax t x.
Proof.
  revert x; induction t as [| y t IH]; intros x; simpl; [lra |].
  eapply Rle_trans; [apply (Rmax_l x y) | apply IH].
Qed.

Lemma Rmax_fold_upper (t : list R) (x : R) :
  Forall (fun y => y <= fold_left Rmax t x) t.
Proof.
  revert x; induction t as [| y t IH]; intros x; simpl; constructor.
  - eapply Rle_trans; [apply (Rmax_r x y) | apply Rmax_fold_ge].
  - apply IH.
Qed.

Lemma Rmax_fold_In (t : list R) (x : R) : In (fold_left Rmax t x) (x :: t).
Proof.
  revert x; induction t as [| y t IH]; intros x; simpl; [auto |].
  destruct (IH (Rmax x y)) as [H | H].
  - unfold Rmax in H at 1. destruct (Rle_dec x y); [right; left | left]; exact H.
  - right; right; exact H.
Qed.

Lemma max_list_spec (l : list R) (m : R) :
  max_list l = Ok m -> In m l /\ Forall (fun y => y <= m) l.
Proof.
  destruct l as [| x t]; simpl; [discriminate |].
  intros H; injection H as <-. split.
  - apply Rmax_fold_In.
  - constructor; [apply Rmax_fold_ge | apply Rmax_fold_upper].
Qed.

Lemma max_list_nonneg (l : list R) (m : R) :
  max_list l = Ok m -> Forall (fun x => 0 <= x) l -> 0 <= m.
Proof.
  intros H Hl. apply max_list_spec in H. destruct H as [Hin _].
  rewrite Forall_forall in Hl. auto.
Qed.

Lemma maxima_nonneg (m : list (list R)) (ms : list R) :
  mapM max_list m = Ok ms -> Forall (Forall (fun x => 0 <= x)) m ->
  Forall (fun x => 0 <= x) ms.
Proof.
  intros H Hm. apply Forall_forall. intros x Hx.
  destruct (mapM_In _ _ _ H x Hx) as (row & Hrow & Hmax).
  rewrite Forall_forall in Hm. eapply max_list_nonneg; eauto.
Qed.

Lemma maxima_total (b r : nat) (m : list (list R)) :
  shape2 b r m -> r <> 0%nat ->
  exists ms, mapM max_list m = Ok ms /\ length ms = b.
Proof.
  intros [Hb Hr] Hne.
  destruct (mapM_total max_list (fun _ => True) m) as (ms & Hms & Hlen & _).
  - eapply Forall_impl; [| exact Hr]. intros [| x row] Hrow; simpl in *;
      [congruence | eauto].
  - exists ms. split; [exact Hms | lia].
Qed.

Lemma mean_nonneg (l : list R) (m : R) :
  mean l = Ok m -> Forall (fun x => 0 <= x) l -> 0 <= m.
Proof.
  destruct l as [| x l]; simpl; [discriminate |].
  intros H Hl; injection H as <-.
  apply Rmult_le_pos.
  - exact (sum_list_nonneg (x :: l) Hl).
  - left. apply Rinv_0_lt_compat.
    destruct l; simpl; [lra |]. pose proof (pos_INR (length (r :: l))).
    simpl in *. lra.
Qed.

Lemma mean_total (l : list R) : l <> [] -> exists m, mean l = Ok m.
Proof. destruct l; [congruence | simpl; eauto]. Qed.

Lemma Rmax_0_1 : Rmax 0 1 = 1.
Proof. apply Rmax_right. lra. Qed.

Lemma Rmax_1_0 : Rmax 1 0 = 1.
Proof. apply Rmax_left. lra. Qed.

Lemma Rmax_0_0 : Rmax 0 0 = 0.
Proof. apply Rmax_left. lra. Qed.

(** ** The node mask (C4) *)

(** The mask of a row without negative entries is nonzero exactly when
    the row has a nonzero entry. *)
Lemma mask_nonzero_iff (row : list R) (m : R) :
  Forall (fun a => 0 <= a) row -> max_list row = Ok m ->
  (m <> 0 <-> Exists (fun a => a <> 0) row).
Proof.
  intros Hpos Hm. apply max_list_spec in Hm. destruct Hm as [Hin Hup].
  rewrite Forall_forall in Hpos, Hup. split.
  - intros Hne. apply Exists_exists. exists m; auto.
  - intros Hex. apply Exists_exists in Hex. destruct Hex as (a & Ha & Hne).
    specialize (Hpos a Ha). specialize (Hup a Ha). lra.
Qed.

Lemma mask_binary (row : list R) (m : R) :
  Forall (fun a => a = 0 \/ a = 1) row -> max_list row = Ok m -> m = 0 \/ m = 1.
Proof.
  intros Hb Hm. apply max_list_spec in Hm. destruct Hm as [Hin _].
  rewrite Forall_forall in Hb. auto.
Qed.

Lemma sum_binary_count (ms : list R) :
  Forall (fun m => m = 0 \/ m = 1) ms -> sum_list ms = INR (count_valid ms).
Proof.
  unfold count_valid, is_valid.
  induction 1 as [| m ms Hm _ IH]; simpl; [reflexivity |].
  rewrite IH. destruct (Req_dec_T m 0) as [-> | Hne].
  - lra.
  - destruct Hm as [-> | ->]; [contradiction |].
    cbn [length]. rewrite S_INR. lra.
Qed.

(** C4, as stated, fails: with an edge weight other than 1 the derived
    [number_of_nodes] is the sum of the row maxima, not the number of
    valid nodes.  Two connected nodes with edge weight 2 give 4. *)
Lemma number_of_nodes_weighted_edges :
  node_masks adj_weighted = Ok [[2; 2]] /\
  number_of_nodes [[2; 2]] = [4] /\
  map (fun g => INR (count_valid g)) [[2; 2]] = [2] /\
  number_of_nodes [[2; 2]] <> map (fun g => INR (count_valid g)) [[2; 2]].
Proof.
  assert (Hmax1 : Rmax 0 2 = 2) by (unfold Rmax; destruct (Rle_dec 0 2); lra).
  assert (Hmax2 : Rmax 2 0 = 2) by (unfold Rmax; destruct (Rle_dec 2 0); lra).
  assert (Hc : map (fun g => INR (count_valid g)) [[2; 2]] = [2]).
  { unfold count_valid, is_valid; simpl.
    destruct (Req_dec_T 2 0); [lra | reflexivity]. }
  assert (Hn : number_of_nodes [[2; 2]] = [4]).
  { unfold number_of_nodes; simpl. f_equal. lra. }
  repeat split.
  - unfold node_masks, adj_weighted; simpl. rewrite Hmax1, Hmax2. reflexivity.
  - exact Hn.
  - exact Hc.
  - rewrite Hn, Hc. intros H. injection H as H. lra.
Qed.

(** C4, amended.  Where no adjacency entry is negative, a node is
    treated as valid (its mask is not 0) iff its row has a nonzero
    entry; where the entries are 0 or 1, [number_of_nodes] of each graph
    is the number of its valid nodes. *)
Theorem node_mask_counts_valid_nodes (adj : list (list (list R))) (masks : list (list R)) :
  node_masks adj = Ok masks ->
  (Forall (Forall (Forall (fun a => 0 <= a))) adj ->
   Forall2 (Forall2 (fun row m => is_valid m = true <-> Exists (fun a => a <> 0) row))
           adj masks) /\
  (Forall (Forall (Forall (fun a => a = 0 \/ a = 1))) adj ->
   number_of_nodes masks = map (fun g => INR (count_valid g)) masks).
Proof.
  intros H. apply node_masks_rows in H. split; intros Hadj.
  - induction H as [| g ms adj' masks' Hg _ IH]; constructor.
    + apply Forall_inv in Hadj. apply mapM_Forall2 in Hg.
      induction Hg as [| row m g' ms' Hrow _ IHg]; constructor.
      * apply Forall_inv in Hadj.
        pose proof (mask_nonzero_iff row m Hadj Hrow) as Hiff.
        unfold is_valid. destruct (Req_dec_T m 0) as [-> | Hne].
        -- split; [discriminate | intros Hex; apply Hiff in Hex; contradiction].
        -- split; [intros _; now apply Hiff | reflexivity].
      * apply IHg. now apply Forall_inv_tail in Hadj.
    + apply IH. now apply Forall_inv_tail in Hadj.
  - unfold number_of_nodes.
    induction H as [| g ms adj' masks' Hg _ IH]; simpl; [reflexivity |].
    f_equal.
    + apply sum_binary_count. apply Forall_inv in Hadj. apply mapM_Forall2 in Hg.
      induction Hg as [| row m g' ms' Hrow _ IHg]; constructor.
      * eapply mask_binary; [| exact Hrow]. now apply Forall_inv in Hadj.
      * apply IHg. now apply Forall_inv_tail in Hadj.
    + apply IH. now apply Forall_inv_tail in Hadj.
Qed.

Lemma node_mask_counts_valid_nodes_witness :
  exists masks,
    node_masks adj_isolated = Ok masks /\
    Forall2 (Forall2 (fun row m => is_valid m = true <-> Exists (fun a => a <> 0) row))
            adj_isolated masks /\
    number_of_nodes masks = map (fun g => INR (count_valid g)) masks.
Proof.
  eexists. split; [reflexivity |].
  destruct (node_mask_counts_valid_nodes adj_isolated _ eq_refl) as [H1 H2].
  split.
  - apply H1. unfold adj_isolated. repeat constructor; lra.
  - apply H2. unfold adj_isolated.
    repeat (apply Forall_cons || apply Forall_nil); auto.
Defined.

(** ** The masked softmax (C1) *)

Lemma fsum_Fin (rs : list R) : fsum (map Fin rs) = Fin (sum_list rs).
Proof.
  induction rs as [| r rs IH]; [reflexivity |].
  change (fadd (Fin r) (fsum (map Fin rs)) = Fin (r + sum_list rs)).
  rewrite IH. reflexivity.
Qed.

Lemma fexp_fill (a m : R) : fexp (fill a m) = Fin (wreal (fill a m)).
Proof. unfold fill. destruct (Req_dec_T m 0); reflexivity. Qed.

Lemma fexp_filled (a m : list R) :
  map fexp (map2 fill a m) = map Fin (map wreal (map2 fill a m)).
Proof.
  revert m; induction a as [| x a IH]; intros [| y m]; simpl; try reflexivity.
  rewrite fexp_fill, IH. reflexivity.
Qed.

Lemma wreal_fill_masked (a : R) : wreal (fill a 0) = 0.
Proof. unfold fill. destruct (Req_dec_T 0 0); [reflexivity | contradiction]. Qed.

Lemma wreal_fill_nonneg (a m : list R) :
  Forall (fun e => 0 <= e) (map wreal (map2 fill a m)).
Proof.
  revert m; induction a as [| x a IH]; intros [| y m]; simpl; constructor; auto.
  unfold fill. destruct (Req_dec_T y 0); simpl; [lra | left; apply exp_pos].
Qed.

(** With a valid node the denominator of the softmax is positive. *)
Lemma softmax_denominator_pos (a m : list R) :
  length a = length m -> Exists (fun y => y <> 0) m ->
  0 < sum_list (map wreal (map2 fill a m)).
Proof.
  revert m; induction a as [| x a IH]; intros [| y m] Hlen Hex; simpl in *;
    try discriminate; [inversion Hex |].
  pose proof (sum_list_nonneg _ (wreal_fill_nonneg a m)) as Hrest.
  unfold fill at 1. destruct (Req_dec_T y 0) as [-> | Hne]; simpl.
  - inversion Hex as [? ? H0 | ? ? Hex']; subst; [contradiction |].
    injection Hlen as Hlen. specialize (IH m Hlen Hex'). lra.
  - pose proof (exp_pos x). lra.
Qed.

Lemma softmax_filled (a m : list R) :
  sum_list (map wreal (map2 fill a m)) <> 0 ->
  softmax (map2 fill a m) =
  map (fun r => Fin (r / sum_list (map wreal (map2 fill a m))))
      (map wreal (map2 fill a m)).
Proof.
  intros Hs. unfold softmax. rewrite fexp_filled, fsum_Fin.
  rewrite map_map. apply map_ext. intros r. simpl.
  destruct (Req_dec_T (sum_list (map wreal (map2 fill a m))) 0);
    [contradiction | reflexivity].
Qed.

(** Masked nodes weigh exactly 0, and the valid weights add up to the
    valid share of the denominator. *)
Lemma softmax_weights (s : R) (a m : list R) :
  length a = length m ->
  let w := map (fun r => Fin (r / s)) (map wreal (map2 fill a m)) in
  Forall2 (fun y v => y = 0 -> v = Fin 0) m w /\
  fsum (valid_weights m w) = Fin (sum_list (map wreal (map2 fill a m)) / s).
Proof.
  revert m; induction a as [| x a IH]; intros [| y m] Hlen; simpl in *;
    try discriminate.
  - split; [constructor | unfold valid_weights; simpl; f_equal; unfold Rdiv; ring].
  - injection Hlen as Hlen. destruct (IH m Hlen) as [IH1 IH2]. split.
    + constructor; [| exact IH1].
      intros ->. unfold fill. destruct (Req_dec_T 0 0); [| contradiction].
      simpl. f_equal. unfold Rdiv; ring.
    + unfold valid_weights in *. simpl. unfold is_valid at 1.
      destruct (Req_dec_T y 0) as [-> | Hne]; simpl.
      * rewrite IH2, wreal_fill_masked. f_equal. unfold Rdiv; ring.
      * unfold fsum in *. rewrite IH2. simpl. f_equal. unfold Rdiv; ring.
Qed.

Lemma masked_fill_rows (attn masks : list (list R)) (filled : list (list fval)) :
  masked_fill attn masks = Ok filled ->
  Forall2 (fun m_g f_g => exists a_g, length a_g = length m_g /\ f_g = map2 fill a_g m_g)
          masks filled.
Proof.
  unfold masked_fill. destruct (same_length2 attn masks) eqn:Hs; [| discriminate].
  intros H; injection H as <-. unfold tmap2.
  revert masks Hs; induction attn as [| a attn IH]; intros [| m masks] Hs;
    simpl in *; try discriminate; constructor.
  - apply andb_prop in Hs. destruct Hs as [Hl _]. apply Nat.eqb_eq in Hl.
    exists a. split; [exact Hl | reflexivity].
  - apply IH. apply andb_prop in Hs. tauto.
Qed.

(** C1.  For a batch whose node masks are [masks] and in which every
    graph has a valid node, the pooling stage returns; the masks it
    works with are [masks]; and its attention weights are, graph by
    graph, a distribution over the valid nodes: one weight per node,
    exactly 0 for every node whose mask is 0, never negative, and the
    weights of the valid nodes sum to 1. *)
Theorem masked_softmax_is_distribution
  (attention : list (list (list R)) -> list (list R))
  (adj : list (list (list R))) (hidden : list (list (list (list R))))
  (masks : list (list R)) :
  node_masks adj = Ok masks ->
  same_length2 (attention (tmap (@concat R) hidden)) masks = true ->
  Forall (Exists (fun m => m <> 0)) masks ->
  exists p,
    forward_pool attention adj hidden = Ok p /\
    p_masks p = masks /\
    Forall2 (fun masks_g attn_g =>
               Forall2 (fun m w => m = 0 -> w = Fin 0) masks_g attn_g /\
               Forall (fun w => exists r, w = Fin r /\ 0 <= r) attn_g /\
               fsum (valid_weights masks_g attn_g) = Fin 1)
            masks (p_attn p).
Proof.
  intros Hm Hshape Hvalid. unfold forward_pool, attention_weights.
  rewrite Hm; simpl.
  destruct (masked_fill (attention (tmap (@concat R) hidden)) masks) as [filled | e] eqn:Hf;
    [| unfold masked_fill in Hf; rewrite Hshape in Hf; discriminate].
  simpl. eexists. split; [reflexivity |]. split; [reflexivity |]. simpl.
  apply masked_fill_rows in Hf. clear Hm Hshape.
  induction Hf as [| m_g f_g masks filled (a_g & Hlen & ->) _ IH]; simpl;
    constructor.
  - pose proof (softmax_denominator_pos a_g m_g Hlen (Forall_inv Hvalid)) as Hpos.
    rewrite (softmax_filled a_g m_g (Rgt_not_eq _ _ Hpos)).
    destruct (softmax_weights (sum_list (map wreal (map2 fill a_g m_g))) a_g m_g Hlen)
      as [H1 H2].
    split; [exact H1 |]. split.
    + apply Forall_map.
      eapply Forall_impl; [| exact (wreal_fill_nonneg a_g m_g)].
      intros r Hr. eexists. split; [reflexivity |].
      apply Rmult_le_pos; [exact Hr |]. left. now apply Rinv_0_lt_compat.
    + rewrite H2. f_equal. field. lra.
  - apply IH. now apply Forall_inv_tail in Hvalid.
Qed.

Lemma masked_softmax_is_distribution_witness :
  exists masks p,
    node_masks adj_isolated = Ok masks /\
    forward_pool (fun _ => [[0; 0; 0]]) adj_isolated hidden_ones = Ok p /\
    p_masks p = masks /\
    Forall2 (fun masks_g attn_g =>
               Forall2 (fun m w => m = 0 -> w = Fin 0) masks_g attn_g /\
               Forall (fun w => exists r, w = Fin r /\ 0 <= r) attn_g /\
               fsum (valid_weights masks_g attn_g) = Fin 1)
            masks (p_attn p).
Proof.
  eexists.
  edestruct (masked_softmax_is_distribution (fun _ => [[0; 0; 0]]) adj_isolated hidden_ones)
    as (p & Hp & Hmasks & Hdist).
  - reflexivity.
  - reflexivity.
  - simpl. repeat constructor. rewrite Rmax_0_1, Rmax_1_0. lra.
  - exists p. split; [reflexivity |]. split; [exact Hp |]. split; [exact Hmasks | exact Hdist].
Defined.

(** ** Graphs without a valid node (C7) *)

(** Without a valid node every weight is NaN. *)
Lemma softmax_all_masked (a m : list R) :
  Forall (fun y => y = 0) m -> Forall (fun w => w = NaN) (softmax (map2 fill a m)).
Proof.
  intros Hm. unfold softmax. rewrite fexp_filled, fsum_Fin.
  assert (He : Forall (fun e => e = 0) (map wreal (map2 fill a m))).
  { revert a; induction Hm as [| y m Hy _ IH]; intros [| x a]; simpl;
      constructor; auto.
    unfold fill. destruct (Req_dec_T y 0); [reflexivity | contradiction]. }
  rewrite (sum_list_zero _ He). rewrite map_map.
  induction He as [| e es -> _ IH]; simpl; constructor; auto.
  unfold inf_of_sign. destruct (Req_dec_T 0 0); [| contradiction].
  destruct (Req_dec_T 0 0); [reflexivity | contradiction].
Qed.

(** A node with weight NaN has NaN in every entry of its reweighted capsules. *)
Lemma reweight_nan (n : R) (h_g : list (list (list R))) (a_g : list fval) :
  Forall (fun w => w = NaN) a_g ->
  Forall (Forall (Forall (fun v => v = NaN)))
    (map2 (fun h_n a => tmap (fun x => fmul (fmul (Fin x) a) (Fin n)) h_n) h_g a_g).
Proof.
  intros Ha. revert h_g; induction Ha as [| a a_g -> _ IH]; intros [| h_n h_g];
    simpl; constructor; auto.
  unfold tmap. apply Forall_map, Forall_forall. intros row _.
  apply Forall_map, Forall_forall. intros x _. reflexivity.
Qed.

(** C7, as stated, fails: one graph of one node without an edge.  Its
    only attention weight is NaN and so is its weighted capsule; nothing
    clamps it to zero. *)
Lemma zero_node_graph_gives_nan :
  exists p,
    forward_pool (fun _ => [[0]]) [[[0]]] [[[[1]]]] = Ok p /\
    p_attn p = [[NaN]] /\ p_hidden p = [[[[NaN]]]] /\
    p_hidden p <> [[[[Fin 0]]]].
Proof.
  eexists. split; [reflexivity |]. simpl.
  assert (Hw : softmax [if Req_dec_T 0 0 then NInf else Fin 0] = [NaN]).
  { destruct (Req_dec_T 0 0) as [_ | Hne]; [| contradiction].
    unfold softmax; simpl.
    destruct (Req_dec_T (0 + 0) 0) as [_ | Hne]; [| exfalso; apply Hne; lra].
    unfold inf_of_sign.
    destruct (Req_dec_T 0 0) as [_ | Hne]; [reflexivity | contradiction]. }
  rewrite Hw. simpl. repeat split. discriminate.
Qed.

(** C7, amended.  For a graph with no valid node the pooling stage
    raises nothing, but it does not clamp either: every attention weight
    of that graph is NaN, and so is every entry of its weighted node
    capsules. *)
Theorem zero_node_graph_pools_to_nan
  (attention : list (list (list R)) -> list (list R))
  (adj : list (list (list R))) (hidden : list (list (list (list R))))
  (masks : list (list R)) :
  node_masks adj = Ok masks ->
  same_length2 (attention (tmap (@concat R) hidden)) masks = true ->
  exists p,
    forward_pool attention adj hidden = Ok p /\
    forall g masks_g,
      nth_error masks g = Some masks_g ->
      Forall (fun m => m = 0) masks_g ->
      (forall attn_g, nth_error (p_attn p) g = Some attn_g ->
                      Forall (fun w => w = NaN) attn_g) /\
      (forall h_g, nth_error (p_hidden p) g = Some h_g ->
                   Forall (Forall (Forall (fun v => v = NaN))) h_g).
Proof.
  intros Hm Hshape. unfold forward_pool, attention_weights.
  rewrite Hm; simpl.
  destruct (masked_fill (attention (tmap (@concat R) hidden)) masks) as [filled | e] eqn:Hf;
    [| unfold masked_fill in Hf; rewrite Hshape in Hf; discriminate].
  simpl. eexists. split; [reflexivity |]. simpl.
  apply masked_fill_rows in Hf.
  assert (Hattn : forall g masks_g attn_g,
             nth_error masks g = Some masks_g -> Forall (fun m => m = 0) masks_g ->
             nth_error (map softmax filled) g = Some attn_g ->
             Forall (fun w => w = NaN) attn_g).
  { intros g masks_g attn_g Hg Hz Ha.
    rewrite nth_error_map in Ha.
    destruct (nth_error filled g) as [f_g |] eqn:Hfg; [| discriminate].
    injection Ha as <-.
    destruct (Forall2_nth_error _ _ _ Hf g masks_g f_g Hg Hfg) as (a_g & _ & ->).
    now apply softmax_all_masked. }
  intros g masks_g Hg Hz. split.
  - intros attn_g Ha. eapply Hattn; eassumption.
  - intros h_g Hh. unfold reweight in Hh.
    apply nth_error_map3 in Hh. destruct Hh as (hg & ag & n & _ & Ha & _ & ->).
    apply reweight_nan. eapply Hattn; eassumption.
Qed.

Lemma zero_node_graph_pools_to_nan_witness :
  exists p,
    forward_pool (fun _ => [[0]]) [[[0]]] [[[[1]]]] = Ok p /\
    forall g masks_g,
      nth_error [[0]] g = Some masks_g ->
      Forall (fun m => m = 0) masks_g ->
      (forall attn_g, nth_error (p_attn p) g = Some attn_g ->
                      Forall (fun w => w = NaN) attn_g) /\
      (forall h_g, nth_error (p_hidden p) g = Some h_g ->
                   Forall (Forall (Forall (fun v => v = NaN))) h_g).
Proof.
  apply (zero_node_graph_pools_to_nan (fun _ => [[0]]) [[[0]]] [[[[1]]]] [[0]]);
    reflexivity.
Defined.

(** ** Shapes *)

Lemma squeeze_idempotent (t : tensor) : squeeze (squeeze t) = squeeze t.
Proof.
  unfold squeeze; simpl. f_equal.
  induction (shape t) as [| n s IH]; simpl; [reflexivity |].
  destruct (n =? 1)%nat eqn:Hn; simpl; [exact IH |].
  rewrite Hn; simpl. f_equal. exact IH.
Qed.

Lemma squeeze_noop (t : tensor) :
  Forall (fun n => n <> 1%nat) (shape t) -> squeeze t = t.
Proof.
  destruct t as [s dat]. unfold squeeze; simpl. intros H. f_equal.
  induction H as [| n s Hn _ IH]; simpl; [reflexivity |].
  apply Nat.eqb_neq in Hn. rewrite Hn; simpl. now f_equal.
Qed.

Lemma numel_squeeze (s : list nat) :
  numel (filter (fun d => negb (d =? 1)%nat) s) = numel s.
Proof.
  induction s as [| n s IH]; simpl; [reflexivity |].
  destruct (Nat.eqb_spec n 1) as [-> | _]; simpl; lia.
Qed.

Lemma length_chunks (c n : nat) (l : list R) : length (chunks c n l) = c.
Proof. revert l; induction c as [| c IH]; intros l; simpl; auto. Qed.

Lemma chunks_rows (c n : nat) (l : list R) :
  (c * n <= length l)%nat -> Forall (fun row => length row = n) (chunks c n l).
Proof.
  revert l; induction c as [| c IH]; intros l Hl; simpl; constructor.
  - rewrite length_firstn. simpl in Hl. lia.
  - apply IH. rewrite length_skipn. simpl in Hl. lia.
Qed.

Lemma rows3_shape (b k d : nat) (l : list R) :
  length l = (b * (k * d))%nat ->
  length (rows3 b k d l) = b /\ Forall (shape2 k d) (rows3 b k d l).
Proof.
  intros Hl. unfold rows3, rows2. split.
  - now rewrite length_map, length_chunks.
  - apply Forall_map.
    eapply Forall_impl; [| apply (chunks_rows b (k * d) l); lia].
    intros g Hg. simpl in Hg.
    split; [apply length_chunks | apply chunks_rows; lia].
Qed.

Lemma norms_shape (b k : nat) (caps : list (list (list R))) :
  length caps = b -> Forall (fun g => length g = k) caps -> shape2 b k (norms caps).
Proof. intros Hb Hk. unfold norms. apply shape2_tmap. split; assumption. Qed.

(** The capsules of a run that returns: [b x k x d], rectangular. *)
Lemma capsules_of_shape (t : tensor) (b k d : nat) :
  wf_tensor t -> shape (squeeze t) = [b; k; d] ->
  capsules_of t = rows3 b k d (data t) /\
  length (capsules_of t) = b /\ Forall (shape2 k d) (capsules_of t).
Proof.
  intros Hwf Hshape. unfold capsules_of. rewrite Hshape. split; [reflexivity |].
  apply rows3_shape. unfold wf_tensor in Hwf.
  rewrite Hwf, <- numel_squeeze. change (numel (shape (squeeze t)) = (b * (k * d))%nat).
  rewrite Hshape. simpl. lia.
Qed.

Lemma length_sum_rows (d : nat) (m : list (list R)) :
  Forall (fun row => length row = d) m -> length (sum_rows d m) = d.
Proof.
  unfold sum_rows. induction 1 as [| row m Hrow _ IH]; simpl.
  - apply repeat_length.
  - rewrite length_map2. lia.
Qed.

Lemma masked_capsules_shape (b k d : nat) (caps : list (list (list R)))
  (T_c : list (list R)) :
  length caps = b -> Forall (shape2 k d) caps -> shape2 b k T_c ->
  shape2 b d (masked_capsules d caps T_c).
Proof.
  intros Hb Hcaps [HbT HT]. unfold masked_capsules, tmap2. split.
  - rewrite length_map, length_map2. lia.
  - apply Forall_map.
    eapply Forall_map2; [| exact Hcaps | exact HT].
    intros g ts [_ Hg] _. simpl. apply length_sum_rows.
    eapply Forall_map2 with (Q' := fun _ => True); [| exact Hg | apply Forall_forall; auto].
    intros v t Hv _. simpl. now rewrite length_map.
Qed.

(** ** The one-hot tensor [T_c] *)

Lemma length_set_nth (i : nat) (x : R) (l : list R) :
  length (set_nth i x l) = length l.
Proof.
  revert i; induction l as [| y l IH]; intros [| i]; simpl; auto.
Qed.

Lemma set_nth_binary (i : nat) (row : list R) :
  Forall (fun t => t = 0 \/ t = 1) row ->
  Forall (fun t => t = 0 \/ t = 1) (set_nth i 1 row).
Proof.
  intros H. revert i; induction H as [| y row Hy Hrow IH]; intros [| i]; simpl;
    constructor; auto.
Qed.

Lemma set_nth_one_hot (s i k : nat) :
  (i < k)%nat ->
  set_nth i 1 (repeat 0 k) =
  map (fun c => if (Z.of_nat c =? Z.of_nat (s + i))%Z then 1 else 0) (seq s k).
Proof.
  revert s i; induction k as [| k IH]; intros s i Hi; [lia |].
  destruct i as [| i]; simpl.
  - rewrite Nat.add_0_r, Z.eqb_refl. f_equal.
    clear IH Hi. generalize (Nat.lt_succ_diag_r s). generalize (S s) as s'.
    induction k as [| k IH]; intros s' Hs; simpl; [reflexivity |].
    destruct (Z.eqb_spec (Z.of_nat s') (Z.of_nat s)) as [Heq | _]; [lia |].
    f_equal. apply IH. lia.
  - destruct (Z.eqb_spec (Z.of_nat s) (Z.of_nat (s + S i))) as [Heq | _]; [lia |].
    f_equal. rewrite (IH (S s) i) by lia.
    replace (S s + i)%nat with (s + S i)%nat by lia. reflexivity.
Qed.

Lemma length_one_hot (k : nat) (t : Z) : length (one_hot k t) = k.
Proof. unfold one_hot. now rewrite length_map, length_seq. Qed.

Lemma wrap_index_total (k : nat) (t : Z) :
  label_in_range k t -> exists i, wrap_index k t = Ok i.
Proof.
  unfold label_in_range, wrap_index. intros Ht.
  destruct ((0 <=? t) && (t <? Z.of_nat k))%Z eqn:H1; [eauto |].
  destruct ((- Z.of_nat k <=? t) && (t <? 0))%Z eqn:H2; [eauto |].
  apply andb_false_iff in H1, H2.
  rewrite !Z.leb_gt, !Z.ltb_ge in *. lia.
Qed.

Lemma wrap_index_nonneg (k : nat) (t : Z) (i : nat) :
  wrap_index k t = Ok i -> (0 <= t)%Z -> (i < k)%nat /\ t = Z.of_nat i.
Proof.
  unfold wrap_index. intros H Ht.
  destruct ((0 <=? t) && (t <? Z.of_nat k))%Z eqn:H1.
  - injection H as <-. apply andb_prop in H1. destruct H1 as [_ H1].
    apply Z.ltb_lt in H1. lia.
  - destruct ((- Z.of_nat k <=? t) && (t <? 0))%Z eqn:H2; [| discriminate].
    apply andb_prop in H2. destruct H2 as [_ H2]. apply Z.ltb_lt in H2. lia.
Qed.

Lemma index_put_binary (b k : nat) (target : list Z) (T_c : list (list R)) :
  index_put (zeros b k) target 1 = Ok T_c ->
  Forall (Forall (fun t => t = 0 \/ t = 1)) T_c.
Proof.
  unfold index_put. destruct (_ =? _)%nat; [| discriminate].
  intros H. apply Forall_forall. intros row Hrow.
  destruct (mapM_In _ _ _ H row Hrow) as ([z t] & Hin & Hf).
  bind_inv Hf. injection Hf as <-. apply set_nth_binary.
  apply in_combine_l in Hin. unfold zeros in Hin. apply repeat_spec in Hin.
  subst z. apply Forall_forall. intros x Hx. apply repeat_spec in Hx. auto.
Qed.

Lemma index_put_total (b k : nat) (target : list Z) :
  length target = b -> Forall (label_in_range k) target ->
  exists T_c, index_put (zeros b k) target 1 = Ok T_c /\ shape2 b k T_c.
Proof.
  intros Hlen Hrange. unfold index_put, zeros.
  rewrite repeat_length, Hlen, Nat.eqb_refl.
  destruct (mapM_total
              (fun '(row, t) => i <- wrap_index (length row) t ;; Ok (set_nth i 1 row))
              (fun row => length row = k)
              (combine (repeat (repeat 0 k) b) target)) as (T_c & HT & HlenT & Hrows).
  - apply Forall_forall. intros [row t] Hin.
    pose proof (in_combine_l _ _ _ _ Hin) as Hrow. apply repeat_spec in Hrow.
    pose proof (in_combine_r _ _ _ _ Hin) as Ht.
    rewrite Forall_forall in Hrange. specialize (Hrange t Ht).
    subst row. rewrite repeat_length.
    destruct (wrap_index_total k t Hrange) as (i & Hi).
    exists (set_nth i 1 (repeat 0 k)). rewrite Hi; simpl.
    split; [reflexivity |]. now rewrite length_set_nth, repeat_length.
  - exists T_c. split; [exact HT |]. split; [| exact Hrows].
    rewrite HlenT, length_combine, repeat_length. lia.
Qed.

Lemma index_put_range (b k : nat) (target : list Z) (T_c : list (list R)) :
  index_put (zeros b k) target 1 = Ok T_c -> Forall (label_in_range k) target.
Proof.
  unfold index_put, zeros. rewrite repeat_length.
  destruct (length target =? b)%nat eqn:Hlen; [| discriminate].
  apply Nat.eqb_eq in Hlen.
  revert b T_c Hlen. induction target as [| t target IH]; intros b T_c Hlen H;
    [constructor |].
  destruct b as [| b]; simpl in *; [discriminate |].
  bind_inv H. bind_inv E. bind_inv H. constructor.
  - rewrite repeat_length in E0. unfold wrap_index, label_in_range in *.
    destruct ((0 <=? t) && (t <? Z.of_nat k))%Z eqn:H1.
    + apply andb_prop in H1. rewrite Z.leb_le, Z.ltb_lt in H1. lia.
    + destruct ((- Z.of_nat k <=? t) && (t <? 0))%Z eqn:H2; [| discriminate].
      apply andb_prop in H2. rewrite Z.leb_le, Z.ltb_lt in H2. lia.
  - apply (IH b a1); [lia | assumption].
Qed.

(** For labels that are not negative, [T_c] is the one-hot encoding. *)
Lemma index_put_one_hot (b k : nat) (target : list Z) (T_c : list (list R)) :
  index_put (zeros b k) target 1 = Ok T_c ->
  Forall (fun t => (0 <= t)%Z) target ->
  T_c = map (one_hot k) target.
Proof.
  unfold index_put, zeros. rewrite repeat_length.
  destruct (length target =? b)%nat eqn:Hlen; [| discriminate].
  apply Nat.eqb_eq in Hlen. intros H Hpos.
  revert b T_c Hlen H. induction Hpos as [| t target Ht _ IH]; intros b T_c Hlen H.
  - destruct b; simpl in *; [| discriminate]. now injection H as <-.
  - destruct b as [| b]; simpl in *; [discriminate |].
    bind_inv H. bind_inv E. injection E as <-. rename a0 into i.
    bind_inv H. injection H as <-. f_equal.
    + rewrite repeat_length in E0.
      destruct (wrap_index_nonneg k t i E0 Ht) as [Hi ->].
      unfold one_hot. now rewrite (set_nth_one_hot 0 i k Hi).
    + apply (IH b); [lia | assumption].
Qed.

(** ** What a run of [calculate_loss] that returns has computed *)

Lemma calculate_loss_at_inv {Layers : Type} (eps thr : R) (self : Model Layers)
  (args : Args) (t : tensor) (target : list Z) (reconstructs : list (list R))
  (loss margin recon : R) (pred : list nat) :
  calculate_loss_at eps thr self args t target reconstructs
    = Ok (loss, margin, recon, pred) ->
  exists batch_size num_class b k d T_c out,
    shape_index (shape t) 0 = Ok batch_size /\
    shape_index (shape t) 1 = Ok num_class /\
    shape (squeeze t) = [b; k; d] /\
    mapM argmax (norms (capsules_of t)) = Ok pred /\
    index_put (zeros batch_size num_class) target 1 = Ok T_c /\
    same_length2 T_c (norms (capsules_of t)) = true /\
    mean (map sum_list (margin_terms (lambda_val args) T_c (norms (capsules_of t))))
      = Ok margin /\
    decoder self (masked_capsules d (capsules_of t) T_c) = Ok out /\
    reconstruction_loss_of eps thr out reconstructs = Ok recon /\
    loss = margin + recon * reg_scale args.
Proof.
  unfold calculate_loss_at. intros H.
  bind_inv H. rename a into batch_size. bind_inv H. rename a into num_class.
  bind_inv H. destruct a as [d0 caps].
  bind_inv H. rename a into pred'. bind_inv H. rename a into T_c.
  bind_inv H. rename a into L_c. bind_inv H. rename a into margin'.
  bind_inv H. rename a into h. bind_inv H. rename a into o.
  bind_inv H. rename a into recon'. injection H as <- <- <- <-.
  unfold rank3_view in E1.
  destruct (shape (squeeze t)) as [| b [| k [| d [| ? ?]]]] eqn:Hshape;
    try discriminate.
  injection E1 as <- <-.
  destruct (same_length2 T_c _) eqn:Hsame in E4; [| discriminate].
  injection E4 as <-.
  exists batch_size, num_class, b, k, d, T_c, (tmap sigmoid o).
  unfold capsules_of, norms, margin_terms, masked_capsules, decoder.
  rewrite Hshape. simpl data.
  repeat split; try assumption.
  rewrite E6; simpl. rewrite E7; simpl. reflexivity.
Qed.

(** ** Batches of one graph (C8) *)

(** C8 fails on the code.  Whatever axes of size one the class-capsule
    layer adds, with a batch axis of size one [squeeze] leaves at most
    the class and the capsule axes: [calculate_loss] then reads the
    number of classes as the batch size, and [sum(dim=2)] has no axis 2
    to sum (or [input_shape[1]] no entry to read).  [forward] raises
    IndexError instead of returning a loss. *)
Theorem forward_loss_batch_of_one_raises {Layers : Type} (self : Model Layers)
  (class_capsule_output : tensor) (label : list Z) (reconstructs : list (list R)) :
  (length (shape (squeeze class_capsule_output)) <= 2)%nat ->
  forward_loss self class_capsule_output label reconstructs = Raise IndexError.
Proof.
  intros Hrank. unfold forward_loss, calculate_loss, calculate_loss_at.
  rewrite squeeze_idempotent. unfold rank3_view.
  destruct (shape (squeeze class_capsule_output)) as [| b [| k [| d s]]];
    simpl in *; try reflexivity; lia.
Qed.

(** The scenario of the specification: one graph, two classes, label 0,
    reconstruction target [1, 0, 0.5]. *)
Lemma forward_loss_scenario_raises :
  forward_loss example_model scenario_class_capsules [0%Z] [[1; 0; 0.5]]
  = Raise IndexError.
Proof.
  apply (forward_loss_batch_of_one_raises example_model scenario_class_capsules).
  simpl. lia.
Defined.

(** ** The runs that return *)

Lemma linear_rows_total (l : Linear) (b n_out : nat) (x : list (list R)) :
  wf_linear l n_out -> shape2 b (in_features l) x ->
  exists y, mapM (linear l) x = Ok y /\ shape2 b n_out y.
Proof.
  intros [Hw Hb] [Hlen Hrows].
  destruct (mapM_total (linear l) (fun row => length row = n_out) x)
    as (y & Hy & Hleny & Hrowsy).
  - eapply Forall_impl; [| exact Hrows]. intros row Hrow. simpl in Hrow.
    unfold linear. apply Nat.eqb_eq in Hrow. rewrite Hrow.
    eexists. split; [reflexivity |]. rewrite length_map2. lia.
  - exists y. split; [exact Hy |]. split; [lia | exact Hrowsy].
Qed.

Lemma decoder_total {Layers : Type} (self : Model Layers) (b hid r : nat)
  (x : list (list R)) :
  wf_linear (reconstruction_layer_1 self) hid ->
  wf_linear (reconstruction_layer_2 self) r ->
  in_features (reconstruction_layer_2 self) = hid ->
  shape2 b (in_features (reconstruction_layer_1 self)) x ->
  exists out, decoder self x = Ok out /\ shape2 b r out.
Proof.
  intros H1 H2 Hin Hx. unfold decoder.
  destruct (linear_rows_total _ b hid x H1 Hx) as (h & Hh & Hsh).
  rewrite Hh; simpl.
  destruct (linear_rows_total (reconstruction_layer_2 self) b r (tmap relu h) H2)
    as (o & Ho & Hso).
  - rewrite Hin. now apply shape2_tmap.
  - rewrite Ho; simpl. eexists. split; [reflexivity |]. now apply shape2_tmap.
Qed.

Lemma divide_rows_total (eps : R) (b r : nat) (reconstructs : list (list R))
  (rmax : list R) :
  shape2 b r reconstructs -> length rmax = b ->
  Forall (fun m => m + eps <> 0) rmax ->
  exists value,
    mapM (fun '(row, m) => mapM (fun x => divide x (m + eps)) row)
         (combine reconstructs rmax) = Ok value /\
    shape2 b r value.
Proof.
  intros [Hb Hr] Hlen Hne.
  destruct (mapM_total
              (fun '(row, m) => mapM (fun x => divide x (m + eps)) row)
              (fun row : list R => length row = r)
              (combine reconstructs rmax)) as (value & Hv & Hlenv & Hrows).
  - apply Forall_forall. intros [row m] Hin.
    pose proof (in_combine_l _ _ _ _ Hin) as Hrow.
    pose proof (in_combine_r _ _ _ _ Hin) as Hm.
    rewrite Forall_forall in Hr, Hne. specialize (Hr row Hrow). specialize (Hne m Hm).
    destruct (mapM_total (fun x => divide x (m + eps)) (fun _ => True) row)
      as (row' & Hrow' & Hlen' & _).
    + apply Forall_forall. intros x _. unfold divide.
      destruct (Req_dec_T (m + eps) 0); [contradiction | eauto].
    + exists row'. split; [exact Hrow' | lia].
  - exists value. split; [exact Hv |]. split; [| exact Hrows].
    rewrite Hlenv, length_combine. lia.
Qed.

Lemma reconstruction_loss_total (eps thr : R) (b r : nat)
  (out reconstructs : list (list R)) :
  shape2 b r out -> shape2 b r reconstructs -> b <> 0%nat -> r <> 0%nat ->
  0 < eps -> Forall (Forall (fun x => 0 <= x)) reconstructs ->
  exists recon, reconstruction_loss_of eps thr out reconstructs = Ok recon.
Proof.
  intros Hout Hrec Hb Hr Heps Hpos. unfold reconstruction_loss_of.
  destruct (maxima_total b r reconstructs Hrec Hr) as (rmax & Hmax & Hlen).
  rewrite Hmax; cbn [bind].
  pose proof (maxima_nonneg _ _ Hmax Hpos) as Hmpos.
  destruct (divide_rows_total eps b r reconstructs rmax Hrec Hlen) as (value & Hv & Hsv).
  { eapply Forall_impl; [| exact Hmpos]. intros m Hm. simpl in Hm. lra. }
  rewrite Hv; cbn [bind]. unfold ewise2.
  rewrite (shape2_same_length2 b r out value Hout Hsv); cbn [bind].
  pose proof (shape2_tmap2 (fun o v => (o - v) ^ 2) b r out value Hout Hsv) as Hdiff.
  destruct (maxima_total b r
              (tmap2 Rmult (tmap2 (fun o v => (o - v) ^ 2) out value)
                 (tmap (fun x => if Rlt_dec x thr then 1 else 0) reconstructs)))
    as (neg & Hneg & Hlneg); [| exact Hr |].
  { apply shape2_tmap2; [exact Hdiff | now apply shape2_tmap]. }
  rewrite Hneg; cbn [bind].
  destruct (maxima_total b r
              (tmap2 Rmult (tmap2 (fun o v => (o - v) ^ 2) out value)
                 (tmap (fun x => 1 - x)
                    (tmap (fun x => if Rlt_dec x thr then 1 else 0) reconstructs))))
    as (pos & Hposl & Hlpos); [| exact Hr |].
  { apply shape2_tmap2; [exact Hdiff | now apply shape2_tmap, shape2_tmap]. }
  rewrite Hposl; cbn [bind].
  apply mean_total. intros Hnil. apply (f_equal (@length R)) in Hnil.
  rewrite length_map2 in Hnil. simpl in Hnil. lia.
Qed.

(** On such a batch [calculate_loss] returns. *)
Lemma calculate_loss_at_total {Layers : Type} (eps thr : R) (self : Model Layers)
  (args : Args) (b k d hid r : nat) (t : tensor) (target : list Z)
  (reconstructs : list (list R)) :
  0 < eps -> batch_ok self b k d hid r t target reconstructs ->
  exists res, calculate_loss_at eps thr self args t target reconstructs = Ok res.
Proof.
  intros Heps [Hshape Hb Hk Hd Hdata Hlab Hrange Hl1 Hin1 Hl2 Hin2 Hr Hrec Hpos].
  unfold calculate_loss_at.
  rewrite squeeze_noop by (rewrite Hshape; repeat constructor; lia).
  unfold rank3_view. rewrite Hshape. cbn [shape_index nth_error bind].
  change (tmap (fun v => sqrt (sum_list (map (fun x => x ^ 2) v)))
               (rows3 b k d (data t)))
    with (norms (rows3 b k d (data t))).
  destruct (rows3_shape b k d (data t)) as [Hcb Hcaps].
  { unfold wf_tensor in Hdata. rewrite Hdata, Hshape. simpl. lia. }
  assert (Hnorm : shape2 b k (norms (rows3 b k d (data t)))).
  { apply norms_shape; [exact Hcb |].
    eapply Forall_impl; [| exact Hcaps]. now intros g [Hg _]. }
  destruct (mapM_total argmax (fun _ => True) (norms (rows3 b k d (data t))))
    as (pred & Hpred & _).
  { destruct Hnorm as [_ Hrows]. eapply Forall_impl; [| exact Hrows].
    intros [| x row] Hrow; simpl in *; [lia | eauto]. }
  rewrite Hpred; cbn [bind].
  destruct (index_put_total b k target Hlab Hrange) as (T_c & HT & HsT).
  rewrite HT; cbn [bind].
  rewrite (shape2_same_length2 b k T_c _ HsT Hnorm); cbn [bind].
  destruct (mean_total
              (map sum_list
                 (tmap3 (fun t0 l r0 => t0 * l + lambda_val args * (1 - t0) * r0) T_c
                    (tmap (fun v => Rmax (m_plus - v) 0 ^ 2)
                       (norms (rows3 b k d (data t))))
                    (tmap (fun v => Rmax (v - m_minus) 0 ^ 2)
                       (norms (rows3 b k d (data t))))))) as (margin & Hmargin).
  { intros Hnil. apply (f_equal (@length R)) in Hnil.
    rewrite length_map in Hnil. unfold tmap3 in Hnil.
    destruct HsT as [HbT _]. destruct Hnorm as [Hbn _].
    unfold tmap in Hnil.
    destruct T_c as [| r1 T_c]; [simpl in HbT; lia |].
    destruct (norms (rows3 b k d (data t))) as [| r2 n]; [simpl in Hbn; lia |].
    simpl in Hnil. discriminate. }
  rewrite Hmargin; cbn [bind].
  change (map (sum_rows d)
            (tmap2 (fun v t0 => map (fun x => x * t0) v) (rows3 b k d (data t)) T_c))
    with (masked_capsules d (rows3 b k d (data t)) T_c).
  destruct (decoder_total self b hid r (masked_capsules d (rows3 b k d (data t)) T_c))
    as (out & Hout & Hsout); try assumption.
  { rewrite Hin1. now apply masked_capsules_shape with (k := k). }
  unfold decoder in Hout.
  destruct (mapM (linear (reconstruction_layer_1 self)) _) as [h |]; [| discriminate].
  cbn [bind] in *.
  destruct (mapM (linear (reconstruction_layer_2 self)) _) as [o |]; [| discriminate].
  cbn [bind] in *. injection Hout as <-.
  destruct (reconstruction_loss_total eps thr b r (tmap sigmoid o) reconstructs)
    as (recon & Hrecon); try assumption; try lia.
  rewrite Hrecon; cbn [bind]. eauto.
Qed.

Lemma epsilon_pos : 0 < epsilon.
Proof. unfold epsilon. lra. Qed.

(** With two graphs or more, [forward] gets through the squeeze and the loss. *)
Lemma forward_loss_returns {Layers : Type} (self : Model Layers) (b k d hid r : nat)
  (t : tensor) (target : list Z) (reconstructs : list (list R)) :
  batch_ok self b k d hid r t target reconstructs ->
  exists res, forward_loss self t target reconstructs = Ok res.
Proof.
  intros Hok. unfold forward_loss, calculate_loss.
  rewrite squeeze_noop
    by (rewrite (ok_shape _ _ _ _ _ _ _ _ _ Hok); pose proof (ok_batch _ _ _ _ _ _ _ _ _ Hok);
        pose proof (ok_classes _ _ _ _ _ _ _ _ _ Hok);
        pose proof (ok_dim _ _ _ _ _ _ _ _ _ Hok); repeat constructor; lia).
  destruct (calculate_loss_at_total epsilon 1e-5 self (args self) b k d hid r t target
              reconstructs epsilon_pos Hok) as ([[[l m] rc] p] & H).
  rewrite H. simpl. eauto.
Qed.

Lemma example_decoder_ok :
  wf_linear (zero_linear 2 1) 1 /\ wf_linear (zero_linear 1 3) 3.
Proof. repeat split. Qed.

Lemma example_reconstructs_ok :
  shape2 2 3 example_reconstructs /\
  Forall (Forall (fun x => 0 <= x)) example_reconstructs.
Proof.
  unfold example_reconstructs. split; [split; [reflexivity | repeat constructor] |].
  repeat constructor; lra.
Qed.

Lemma example_batch_ok (args : Args) (t : tensor) (reconstructs : list (list R)) :
  shape t = [2; 2; 2]%nat -> wf_tensor t ->
  shape2 2 3 reconstructs /\ Forall (Forall (fun x => 0 <= x)) reconstructs ->
  batch_ok (mkModel unit args [3%nat] 2 3 2 tt (zero_linear 2 1) (zero_linear 1 3) false)
           2 2 2 1 3 t example_target reconstructs.
Proof.
  intros Hs Hwf [Hrec Hpos].
  constructor; try exact Hs; try exact Hwf; try apply example_decoder_ok;
    try assumption; try reflexivity; try lia.
  unfold example_target, label_in_range. repeat constructor; simpl; lia.
Qed.

(** The example model returns on every such batch. *)
Lemma example_run (args : Args) (t : tensor) (reconstructs : list (list R)) :
  shape t = [2; 2; 2]%nat -> wf_tensor t ->
  shape2 2 3 reconstructs /\ Forall (Forall (fun x => 0 <= x)) reconstructs ->
  exists loss margin recon pred,
    calculate_loss
      (mkModel unit args [3%nat] 2 3 2 tt (zero_linear 2 1) (zero_linear 1 3) false)
      args t example_target reconstructs
    = Ok (loss, margin, recon, pred).
Proof.
  intros Hs Hwf Hrec.
  destruct (calculate_loss_at_total epsilon 1e-5 _ args 2 2 2 1 3 t example_target
              reconstructs epsilon_pos (example_batch_ok args t reconstructs Hs Hwf Hrec))
    as ([[[l m] r] p] & H).
  exists l, m, r, p. exact H.
Qed.

Lemma example_labels_nonneg : Forall (fun l => (0 <= l)%Z) example_target.
Proof. unfold example_target. repeat constructor; lia. Qed.

(** ** Signs of the losses (C10) *)

Lemma margin_terms_nonneg (lam : R) (T_c v_mag : list (list R)) :
  0 <= lam -> Forall (Forall (fun t => t = 0 \/ t = 1)) T_c ->
  Forall (fun x => 0 <= x) (map sum_list (margin_terms lam T_c v_mag)).
Proof.
  intros Hlam HT. apply Forall_map.
  assert (H : Forall (Forall (fun x => 0 <= x)) (margin_terms lam T_c v_mag)).
  { unfold margin_terms, tmap3.
    apply Forall_map3 with (Q := Forall (fun t => t = 0 \/ t = 1))
                           (Q' := Forall (fun x => 0 <= x))
                           (Q'' := Forall (fun x => 0 <= x));
      [| exact HT | apply Forall_tmap | apply Forall_tmap];
      try (intros a; apply pow2_ge_0).
    intros ts ls rs Hts Hls Hrs.
    apply Forall_map3 with (Q := fun t => t = 0 \/ t = 1)
                           (Q' := fun x => 0 <= x) (Q'' := fun x => 0 <= x);
      try assumption.
    intros t l r [-> | ->] Hl Hr; nra. }
  eapply Forall_impl; [| exact H]. intros row Hrow. now apply sum_list_nonneg.
Qed.

Lemma reconstruction_loss_nonneg (eps thr : R) (out reconstructs : list (list R))
  (recon : R) :
  reconstruction_loss_of eps thr out reconstructs = Ok recon -> 0 <= recon.
Proof.
  unfold reconstruction_loss_of, ewise2. intros H.
  bind_inv H. rename a into rmax. bind_inv H. rename a into value.
  bind_inv H. rename a into diff. bind_inv H. rename a into neg_loss.
  bind_inv H. rename a into pos_loss.
  destruct (same_length2 out value); [| discriminate]. injection E1 as <-.
  assert (Hdiff : Forall (Forall (fun x => 0 <= x))
                         (tmap2 (fun o v => (o - v) ^ 2) out value)).
  { unfold tmap2.
    apply Forall_map2 with (Q := fun _ => True) (Q' := fun _ => True);
      try (apply Forall_forall; auto).
    intros r r' _ _.
    apply Forall_map2 with (Q := fun _ => True) (Q' := fun _ => True);
      try (apply Forall_forall; auto).
    intros o v _ _. apply pow2_ge_0. }
  assert (Hprod : forall ind, Forall (Forall (fun x => 0 <= x)) ind ->
            Forall (Forall (fun x => 0 <= x))
                   (tmap2 Rmult (tmap2 (fun o v => (o - v) ^ 2) out value) ind)).
  { intros ind Hind. unfold tmap2 at 1.
    apply Forall_map2 with (Q := Forall (fun x => 0 <= x))
                           (Q' := Forall (fun x => 0 <= x)); try assumption.
    intros r r' Hr Hr'.
    apply Forall_map2 with (Q := fun x => 0 <= x) (Q' := fun x => 0 <= x);
      try assumption.
    intros; now apply Rmult_le_pos. }
  eapply mean_nonneg; [exact H |].
  apply Forall_map2 with (Q := fun x => 0 <= x) (Q' := fun x => 0 <= x).
  - intros; lra.
  - eapply maxima_nonneg; [exact E3 |]. apply Hprod.
    rewrite tmap_tmap. apply Forall_tmap.
    intros x. destruct (Rlt_dec x thr); lra.
  - eapply maxima_nonneg; [exact E2 |]. apply Hprod.
    apply Forall_tmap. intros x. destruct (Rlt_dec x thr); lra.
Qed.

(** C10.  With [lambda_val] and [reg_scale] not negative, the margin
    loss, the reconstruction loss and the total loss that
    [calculate_loss] returns are not negative. *)
Theorem losses_nonnegative {Layers : Type} (self : Model Layers) (args : Args)
  (capsule_input : tensor) (target : list Z) (reconstructs : list (list R))
  (loss margin_loss reconstruction_loss : R) (pred : list nat) :
  0 <= lambda_val args -> 0 <= reg_scale args ->
  calculate_loss self args capsule_input target reconstructs
    = Ok (loss, margin_loss, reconstruction_loss, pred) ->
  0 <= margin_loss /\ 0 <= reconstruction_loss /\ 0 <= loss.
Proof.
  intros Hlam Hreg H. apply calculate_loss_at_inv in H.
  destruct H as (bs & nc & b & k & d & T_c & out & _ & _ & _ & _ & HT & _ & Hm & _ & Hr & ->).
  assert (H1 : 0 <= margin_loss).
  { eapply mean_nonneg; [exact Hm |]. apply margin_terms_nonneg; [exact Hlam |].
    eapply index_put_binary; exact HT. }
  assert (H2 : 0 <= reconstruction_loss)
    by (eapply reconstruction_loss_nonneg; exact Hr).
  repeat split; try assumption. nra.
Qed.

Lemma losses_nonnegative_witness :
  exists loss margin recon pred,
    calculate_loss example_model example_args example_capsules example_target
      example_reconstructs = Ok (loss, margin, recon, pred) /\
    0 <= margin /\ 0 <= recon /\ 0 <= loss.
Proof.
  destruct (example_run example_args example_capsules example_reconstructs eq_refl eq_refl
              example_reconstructs_ok)
    as (l & m & r & p & H).
  exists l, m, r, p. split; [exact H |].
  apply (losses_nonnegative example_model example_args example_capsules
           example_target example_reconstructs l m r p); [simpl; lra | simpl; lra | exact H].
Defined.

(** ** The margin loss (C2) *)

Lemma margin_terms_one_hot (lam : R) (k : nat) (target : list Z)
  (v_mag : list (list R)) :
  same_length2 (map (one_hot k) target) v_mag = true ->
  map sum_list (margin_terms lam (map (one_hot k) target) v_mag)
  = map2 (margin_graph lam) v_mag target.
Proof.
  unfold margin_terms, tmap3, tmap. rewrite map3_map_map.
  revert v_mag; induction target as [| t target IH]; intros [| v v_mag] Hs;
    simpl in *; try discriminate; [reflexivity |].
  apply andb_prop in Hs. destruct Hs as [Hl Hs]. apply Nat.eqb_eq in Hl.
  rewrite length_one_hot in Hl. f_equal; [| now apply IH].
  unfold margin_graph. rewrite <- Hl, map3_map_map. f_equal.
  clear. generalize (one_hot k t) as T. intros T.
  revert v; induction T as [| x T IHT]; intros [| y v]; simpl; auto.
  f_equal; [| apply IHT].
  unfold margin_class, m_plus, m_minus.
  rewrite (Rmax_comm (0.9 - y) 0), (Rmax_comm (y - 0.1) 0). reflexivity.
Qed.

(** The margin loss of a run that returns. *)
Lemma margin_loss_value {Layers : Type} (eps thr : R) (self : Model Layers)
  (args : Args) (t : tensor) (target : list Z) (reconstructs : list (list R))
  (loss margin recon : R) (pred : list nat) :
  calculate_loss_at eps thr self args t target reconstructs
    = Ok (loss, margin, recon, pred) ->
  Forall (fun l => (0 <= l)%Z) target ->
  margin = margin_loss_spec (lambda_val args) (norms (capsules_of t)) target.
Proof.
  intros H Hpos. apply calculate_loss_at_inv in H.
  destruct H as (bs & nc & b & k & d & T_c & out & _ & _ & _ & _ & HT & Hs & Hm & _).
  rewrite (index_put_one_hot bs nc target T_c HT Hpos) in Hs, Hm.
  rewrite (margin_terms_one_hot _ _ _ _ Hs) in Hm.
  unfold mean in Hm. unfold margin_loss_spec.
  pose proof (same_length2_length _ _ Hs) as Hlen. rewrite length_map in Hlen.
  assert (Hlen2 : length (map2 (margin_graph (lambda_val args))
                            (norms (capsules_of t)) target)
                  = length (norms (capsules_of t)))
    by (rewrite length_map2; lia).
  destruct (map2 _ _ _) as [| x l]; [discriminate |].
  injection Hm as <-. now rewrite <- Hlen2.
Qed.

(** C2.  The margin loss [calculate_loss] returns is the mean over the
    batch of the sum over classes of
    [T_c * max(0, 0.9 - v_mag)^2 + lambda_val * (1 - T_c) * max(0, v_mag - 0.1)^2],
    [T_c] the one-hot encoding of the label. *)
Theorem margin_loss_is_spec {Layers : Type} (self : Model Layers) (args : Args)
  (capsule_input : tensor) (target : list Z) (reconstructs : list (list R))
  (loss margin_loss reconstruction_loss : R) (pred : list nat) :
  calculate_loss self args capsule_input target reconstructs
    = Ok (loss, margin_loss, reconstruction_loss, pred) ->
  Forall (fun l => (0 <= l)%Z) target ->
  margin_loss
  = margin_loss_spec (lambda_val args) (norms (capsules_of capsule_input)) target.
Proof. apply margin_loss_value. Qed.

Lemma margin_loss_is_spec_witness :
  exists loss margin recon pred,
    calculate_loss example_model example_args example_capsules example_target
      example_reconstructs = Ok (loss, margin, recon, pred) /\
    margin = margin_loss_spec 0.5 (norms (capsules_of example_capsules)) example_target.
Proof.
  destruct (example_run example_args example_capsules example_reconstructs eq_refl eq_refl
              example_reconstructs_ok)
    as (l & m & r & p & H).
  exists l, m, r, p. split; [exact H |].
  apply (margin_loss_is_spec example_model example_args example_capsules
           example_target example_reconstructs l m r p H example_labels_nonneg).
Defined.

(** ** When the margin loss vanishes (C5) *)

Lemma margin_class_nonneg (lam T v : R) :
  0 <= lam -> T = 0 \/ T = 1 -> 0 <= margin_class lam T v.
Proof.
  intros Hlam HT. unfold margin_class.
  pose proof (pow2_ge_0 (Rmax 0 (0.9 - v))).
  pose proof (pow2_ge_0 (Rmax 0 (v - 0.1))).
  destruct HT as [-> | ->]; nra.
Qed.

Lemma margin_class_zero (lam v : R) (hot : bool) :
  0 < lam -> margin_class lam (if hot then 1 else 0) v = 0 ->
  if hot then 0.9 <= v else v <= 0.1.
Proof.
  unfold margin_class. intros Hlam H. destruct hot.
  - assert (H0 : Rmax 0 (0.9 - v) ^ 2 = 0) by lra.
    unfold Rmax in H0. destruct (Rle_dec 0 (0.9 - v)); nra.
  - assert (H0 : Rmax 0 (v - 0.1) ^ 2 = 0) by nra.
    unfold Rmax in H0. destruct (Rle_dec 0 (v - 0.1)); nra.
Qed.

Lemma margin_classes_zero (lam : R) (label : Z) (v_g : list R) (s k : nat) :
  0 < lam ->
  sum_list (map2 (margin_class lam)
              (map (fun c => if (Z.of_nat c =? label)%Z then 1 else 0) (seq s k))
              v_g) = 0 ->
  forall c v, nth_error v_g c = Some v -> (c < k)%nat ->
              if (Z.of_nat (s + c) =? label)%Z then 0.9 <= v else v <= 0.1.
Proof.
  intros Hlam. revert s k.
  induction v_g as [| y v_g IH]; intros s k Hs c v Hc Hck;
    [destruct c; discriminate |].
  destruct k as [| k]; [lia |]. simpl in Hs.
  assert (Hrest : 0 <= sum_list (map2 (margin_class lam)
                       (map (fun c => if (Z.of_nat c =? label)%Z then 1 else 0)
                            (seq (S s) k)) v_g)).
  { apply sum_list_nonneg.
    apply Forall_map2 with (Q := fun T => T = 0 \/ T = 1) (Q' := fun _ => True).
    - intros T w HT _. apply margin_class_nonneg; [lra | exact HT].
    - apply Forall_map, Forall_forall. intros n _.
      destruct (Z.of_nat n =? label)%Z; auto.
    - apply Forall_forall; auto. }
  assert (Hhead : 0 <= margin_class lam
                         (if (Z.of_nat s =? label)%Z then 1 else 0) y).
  { apply margin_class_nonneg; [lra |].
    destruct (Z.of_nat s =? label)%Z; auto. }
  destruct c as [| c]; simpl in Hc.
  - injection Hc as <-. rewrite Nat.add_0_r.
    apply (margin_class_zero lam y (Z.of_nat s =? label)%Z Hlam). lra.
  - replace (s + S c)%nat with (S s + c)%nat by lia.
    apply (IH (S s) k); [lra | exact Hc | lia].
Qed.

Lemma margin_graph_nonneg (lam : R) (label : Z) (v_g : list R) :
  0 <= lam -> 0 <= margin_graph lam v_g label.
Proof.
  intros Hlam. unfold margin_graph, one_hot. apply sum_list_nonneg.
  apply Forall_map2 with (Q := fun T => T = 0 \/ T = 1) (Q' := fun _ => True).
  - intros T w HT _. now apply margin_class_nonneg.
  - apply Forall_map, Forall_forall. intros n _.
    destruct (Z.of_nat n =? label)%Z; auto.
  - apply Forall_forall; auto.
Qed.

Lemma margin_graph_zero (lam : R) (label : Z) (v_g : list R) :
  0 < lam -> margin_graph lam v_g label = 0 ->
  forall c v, nth_error v_g c = Some v ->
              if (Z.of_nat c =? label)%Z then 0.9 <= v else v <= 0.1.
Proof.
  unfold margin_graph, one_hot. intros Hlam Hs c v Hc.
  apply (margin_classes_zero lam label v_g 0 (length v_g) Hlam Hs c v Hc).
  apply nth_error_Some. congruence.
Qed.

Lemma margin_loss_spec_zero (lam : R) (v_mag : list (list R)) (target : list Z) :
  0 < lam -> length v_mag = length target -> v_mag <> [] ->
  margin_loss_spec lam v_mag target = 0 -> margins_met v_mag target.
Proof.
  intros Hlam Hlen Hne H. unfold margin_loss_spec in H.
  assert (Hsum : sum_list (map2 (margin_graph lam) v_mag target) = 0).
  { assert (Hb : 0 < INR (length v_mag)).
    { apply lt_0_INR. destruct v_mag; [congruence | simpl; lia]. }
    unfold Rdiv in H. apply Rmult_integral in H. destruct H as [H | H]; [exact H |].
    pose proof (Rinv_0_lt_compat _ Hb). lra. }
  apply sum_list_zero_inv in Hsum.
  - clear H Hne. unfold margins_met.
    revert target Hlen Hsum. induction v_mag as [| v_g v_mag IH];
      intros [| label target] Hlen Hsum; simpl in *; try discriminate; constructor.
    + apply (margin_graph_zero lam label v_g Hlam). now apply Forall_inv in Hsum.
    + apply IH; [lia | now apply Forall_inv_tail in Hsum].
  - apply Forall_map2 with (Q := fun _ => True) (Q' := fun _ => True);
      try (apply Forall_forall; auto).
    intros v_g label _ _. apply margin_graph_nonneg. lra.
Qed.

(** C5, amended.  With [lambda_val] positive, the margin loss is 0 only
    when in every graph the norm of the true-class capsule is at least
    0.9 and the norm of every other class capsule at most 0.1. *)
Theorem margin_loss_zero_only_if_margins_met {Layers : Type} (self : Model Layers)
  (args : Args) (capsule_input : tensor) (target : list Z)
  (reconstructs : list (list R)) (loss reconstruction_loss : R) (pred : list nat) :
  0 < lambda_val args ->
  Forall (fun l => (0 <= l)%Z) target ->
  calculate_loss self args capsule_input target reconstructs
    = Ok (loss, 0, reconstruction_loss, pred) ->
  margins_met (norms (capsules_of capsule_input)) target.
Proof.
  intros Hlam Hpos H.
  pose proof (margin_loss_value epsilon 1e-5 self args capsule_input target
                reconstructs loss 0 reconstruction_loss pred H Hpos) as Hspec.
  apply calculate_loss_at_inv in H.
  destruct H as (bs & nc & b & k & d & T_c & out & _ & _ & _ & _ & HT & Hs & Hm & _).
  rewrite (index_put_one_hot bs nc target T_c HT Hpos) in Hs.
  apply same_length2_length in Hs. rewrite length_map in Hs.
  apply (margin_loss_spec_zero (lambda_val args)); auto.
  intros Hnil. rewrite Hnil in Hs. destruct target; [| discriminate].
  rewrite Hnil in Hm. simpl in HT.
  unfold margin_terms, tmap3, tmap in Hm. simpl in Hm.
  destruct T_c; simpl in Hm; discriminate.
Qed.

Lemma example_norms : norms (capsules_of example_capsules) = [[1; 0]; [0; 1]].
Proof.
  unfold norms, capsules_of, tmap; simpl.
  replace (1 * (1 * 1) + (0 * (0 * 1) + 0)) with 1 by ring.
  replace (0 * (0 * 1) + (1 * (1 * 1) + 0)) with 1 by ring.
  replace (0 * (0 * 1) + (0 * (0 * 1) + 0)) with 0 by ring.
  rewrite sqrt_1, sqrt_0. reflexivity.
Qed.

Lemma example_margin_spec (lam : R) :
  margin_loss_spec lam [[1; 0]; [0; 1]] example_target = 0.
Proof.
  unfold margin_loss_spec, margin_graph, margin_class, one_hot; simpl.
  unfold Rmax.
  destruct (Rle_dec 0 (0.9 - 1)); [lra |].
  destruct (Rle_dec 0 (0 - 0.1)); [lra |].
  field.
Qed.

(** A run with margin loss 0. *)
Lemma example_run_zero_margin :
  exists loss recon pred,
    calculate_loss example_model example_args example_capsules example_target
      example_reconstructs = Ok (loss, 0, recon, pred).
Proof.
  destruct (example_run example_args example_capsules example_reconstructs eq_refl eq_refl
              example_reconstructs_ok)
    as (l & m & r & p & H).
  exists l, r, p.
  pose proof (margin_loss_value _ _ _ _ _ _ _ _ _ _ _ H example_labels_nonneg) as Hm.
  rewrite example_norms, example_margin_spec in Hm. subst m. exact H.
Qed.

Lemma margin_loss_zero_only_if_margins_met_witness :
  margins_met (norms (capsules_of example_capsules)) example_target.
Proof.
  destruct example_run_zero_margin as (l & r & p & H).
  apply (margin_loss_zero_only_if_margins_met example_model example_args
           example_capsules example_target example_reconstructs l r p);
    [simpl; lra | exact example_labels_nonneg | exact H].
Defined.

Lemma long_norms : norms (capsules_of long_capsules) = [[1; 1]; [1; 1]].
Proof.
  unfold norms, capsules_of, tmap; simpl.
  replace (1 * (1 * 1) + (0 * (0 * 1) + 0)) with 1 by ring.
  rewrite sqrt_1. reflexivity.
Qed.

(** C5, as stated, fails: with [lambda_val = 0] the classes that are not
    the label cost nothing.  Every capsule of this batch has norm 1; the
    margin loss is 0 although the other class has norm 1 > 0.1. *)
Lemma margin_loss_zero_lambda_zero :
  exists loss recon pred,
    calculate_loss
      (mkModel unit args_lambda_zero [3%nat] 2 3 2 tt (zero_linear 2 1)
               (zero_linear 1 3) false)
      args_lambda_zero long_capsules example_target example_reconstructs
    = Ok (loss, 0, recon, pred) /\
    ~ margins_met (norms (capsules_of long_capsules)) example_target.
Proof.
  destruct (example_run args_lambda_zero long_capsules example_reconstructs eq_refl eq_refl
              example_reconstructs_ok)
    as (l & m & r & p & H).
  exists l, r, p.
  pose proof (margin_loss_value _ _ _ _ _ _ _ _ _ _ _ H example_labels_nonneg) as Hm.
  rewrite long_norms in Hm |- *. split.
  - replace m with 0 in H; [exact H |]. rewrite Hm.
    unfold margin_loss_spec, margin_graph, margin_class, one_hot; simpl.
    unfold Rmax. destruct (Rle_dec 0 (0.9 - 1)); [lra | field].
  - intros Hmet. unfold margins_met, example_target in Hmet.
    apply Forall2_cons_iff in Hmet. destruct Hmet as [H0 _].
    specialize (H0 1%nat 1 eq_refl). simpl in H0. lra.
Qed.

(** ** The reconstruction loss (C3) *)

Lemma max_list_maximum (r : list R) (m : R) : max_list r = Ok m -> m = maximum r.
Proof.
  destruct r as [| x t]; simpl; [discriminate |].
  intros H; injection H as <-. apply fold_symmetric.
  - intros a b c. apply Rmax_assoc.
  - intros y. apply Rmax_comm.
Qed.

Lemma max_error_nonneg (errs : list R) : 0 <= max_error errs.
Proof.
  induction errs as [| e errs IH]; simpl; [lra |].
  eapply Rle_trans; [exact IH | apply Rmax_r].
Qed.

(** On errors that are not negative, [torch.max] is [max_error]. *)
Lemma max_list_max_error (errs : list R) (m : R) :
  Forall (fun e => 0 <= e) errs -> max_list errs = Ok m -> m = max_error errs.
Proof.
  intros Hpos H. rewrite (max_list_maximum _ _ H).
  destruct errs as [| x t]; [discriminate |]. simpl. clear H.
  apply Forall_inv in Hpos.
  induction t as [| y t IH]; simpl.
  - rewrite Rmax_left; lra.
  - rewrite IH. rewrite !Rmax_assoc. f_equal. apply Rmax_comm.
Qed.

(** Multiplying by an indicator and taking the maximum selects. *)
Lemma max_error_masked (p : R -> bool) (r errs : list R) :
  length errs = length r ->
  max_error (map2 Rmult errs (map (fun x => if p x then 1 else 0) r))
  = max_error (select p r errs).
Proof.
  unfold select. revert r; induction errs as [| e errs IH]; intros [| x r] Hlen;
    simpl in *; try discriminate; [reflexivity |].
  injection Hlen as Hlen. rewrite (IH r Hlen).
  destruct (p x); simpl.
  - now rewrite Rmult_1_r.
  - rewrite Rmult_0_r. apply Rmax_right. apply max_error_nonneg.
Qed.

Lemma divide_row (eps m : R) (row value : list R) :
  mapM (fun x => divide x (m + eps)) row = Ok value ->
  value = map (fun x => x / (m + eps)) row.
Proof.
  rewrite mapM_Forall2. induction 1 as [| x v row value Hx _ IH]; simpl;
    [reflexivity |].
  unfold divide in Hx. destruct (Req_dec_T (m + eps) 0); [discriminate |].
  injection Hx as <-. now rewrite IH.
Qed.

Lemma squared_errors_nonneg (out value : list R) :
  Forall (fun e => 0 <= e) (map2 (fun o v => (o - v) ^ 2) out value).
Proof.
  apply Forall_map2 with (Q := fun _ => True) (Q' := fun _ => True);
    try (apply Forall_forall; auto).
  intros; apply pow2_ge_0.
Qed.

(** One graph of lines 137-145. *)
Lemma recon_graph_value (eps thr : R) (out row value : list R) (m n p : R) :
  max_list row = Ok m ->
  mapM (fun x => divide x (m + eps)) row = Ok value ->
  length out = length value ->
  max_list (map2 Rmult (map2 (fun o v => (o - v) ^ 2) out value)
              (map (fun x => if Rlt_dec x thr then 1 else 0) row)) = Ok n ->
  max_list (map2 Rmult (map2 (fun o v => (o - v) ^ 2) out value)
              (map (fun x => 1 - x)
                 (map (fun x => if Rlt_dec x thr then 1 else 0) row))) = Ok p ->
  p + n = recon_graph eps thr out row.
Proof.
  intros Hm Hv Hlen Hn Hp. unfold recon_graph.
  apply max_list_maximum in Hm. subst m.
  apply divide_row in Hv. subst value.
  set (errs := map2 (fun o v => (o - v) ^ 2) out
                    (map (fun x => x / (maximum row + eps)) row)) in *.
  assert (Herrs : Forall (fun e => 0 <= e) errs) by apply squared_errors_nonneg.
  assert (Hle : length errs = length row).
  { unfold errs. rewrite length_map2, Hlen, length_map. lia. }
  apply max_list_max_error in Hn, Hp.
  - rewrite Rplus_comm. f_equal.
    + rewrite Hn, <- (max_error_masked (is_negative thr) row errs Hle).
      f_equal. f_equal. apply map_ext. intros x. unfold is_negative.
      destruct (Rlt_dec x thr); reflexivity.
    + rewrite Hp, <- (max_error_masked (fun x => negb (is_negative thr x)) row errs Hle).
      f_equal. f_equal. rewrite map_map. apply map_ext. intros x. unfold is_negative.
      destruct (Rlt_dec x thr); simpl; lra.
  - apply Forall_map2 with (Q := fun e => 0 <= e) (Q' := fun e => 0 <= e);
      [intros; now apply Rmult_le_pos | exact Herrs |].
    rewrite map_map. apply Forall_map, Forall_forall. intros x _.
    destruct (Rlt_dec x thr); lra.
  - apply Forall_map2 with (Q := fun e => 0 <= e) (Q' := fun e => 0 <= e);
      [intros; now apply Rmult_le_pos | exact Herrs |].
    apply Forall_map, Forall_forall. intros x _.
    destruct (Rlt_dec x thr); lra.
Qed.

Lemma recon_rows_value (eps thr : R) (reconstructs : list (list R)) (rmax : list R) :
  Forall2 (fun row m => max_list row = Ok m) reconstructs rmax ->
  forall value out neg pos,
    mapM (fun '(row, m) => mapM (fun x => divide x (m + eps)) row)
         (combine reconstructs rmax) = Ok value ->
    same_length2 out value = true ->
    mapM max_list
      (tmap2 Rmult (tmap2 (fun o v => (o - v) ^ 2) out value)
         (tmap (fun x => if Rlt_dec x thr then 1 else 0) reconstructs)) = Ok neg ->
    mapM max_list
      (tmap2 Rmult (tmap2 (fun o v => (o - v) ^ 2) out value)
         (tmap (fun x => 1 - x)
            (tmap (fun x => if Rlt_dec x thr then 1 else 0) reconstructs))) = Ok pos ->
    map2 Rplus pos neg = map2 (recon_graph eps thr) out reconstructs /\
    length (map2 Rplus pos neg) = length reconstructs.
Proof.
  unfold tmap2, tmap.
  induction 1 as [| row m reconstructs rmax Hm _ IH]; intros value out neg pos Hv Hs Hn Hp.
  - simpl in Hv. injection Hv as <-. destruct out; [| discriminate].
    simpl in Hn, Hp. injection Hn as <-. injection Hp as <-. split; reflexivity.
  - simpl in Hv. bind_inv Hv. rename a into v. bind_inv Hv. rename a into value'.
    injection Hv as <-.
    destruct out as [| o out]; [discriminate |]. simpl in Hs.
    apply andb_prop in Hs. destruct Hs as [Hl Hs]. apply Nat.eqb_eq in Hl.
    simpl in Hn, Hp.
    bind_inv Hn. rename a into n. bind_inv Hn. rename a into neg'. injection Hn as <-.
    bind_inv Hp. rename a into p. bind_inv Hp. rename a into pos'. injection Hp as <-.
    destruct (IH value' out neg' pos' E0 Hs E2 E4) as [IH1 IH2].
    simpl. split; [| now f_equal]. f_equal; [| exact IH1].
    eapply recon_graph_value; eassumption.
Qed.

(** Lines 137-146 compute the reconstruction loss of the specification. *)
Lemma reconstruction_loss_value (eps thr : R) (out reconstructs : list (list R))
  (recon : R) :
  reconstruction_loss_of eps thr out reconstructs = Ok recon ->
  recon = reconstruction_loss_spec eps thr out reconstructs.
Proof.
  unfold reconstruction_loss_of, ewise2. intros H.
  bind_inv H. rename a into rmax. bind_inv H. rename a into value.
  bind_inv H. rename a into diff. bind_inv H. rename a into neg.
  bind_inv H. rename a into pos.
  destruct (same_length2 out value) eqn:Hs; [| discriminate]. injection E1 as <-.
  apply mapM_Forall2 in E.
  destruct (recon_rows_value eps thr reconstructs rmax E value out neg pos E0 Hs E2 E3)
    as [Hrows Hlen].
  unfold mean in H. unfold reconstruction_loss_spec.
  rewrite <- Hrows, <- Hlen.
  destruct (map2 Rplus pos neg); [discriminate |]. now injection H as <-.
Qed.

Lemma linear_rows_value (l : Linear) (x y : list (list R)) :
  mapM (linear l) x = Ok y -> y = map (affine l) x.
Proof.
  rewrite mapM_Forall2. induction 1 as [| a b x y Hab _ IH]; simpl; [reflexivity |].
  unfold linear in Hab. destruct (_ =? _)%nat; [| discriminate].
  injection Hab as <-. now rewrite IH.
Qed.

Lemma decoder_value {Layers : Type} (self : Model Layers) (x out : list (list R)) :
  decoder self x = Ok out -> out = map (decode self) x.
Proof.
  unfold decoder. intros H. bind_inv H. bind_inv H. injection H as <-.
  apply linear_rows_value in E, E0. subst a a0.
  unfold tmap, decode. rewrite !map_map. reflexivity.
Qed.

Lemma scale_one (v : list R) : map (fun x => x * 1) v = v.
Proof.
  rewrite <- (map_id v) at 2. apply map_ext. intros x. apply Rmult_1_r.
Qed.

Lemma scale_zero (v : list R) : map (fun x => x * 0) v = repeat 0 (length v).
Proof. induction v as [| x v IH]; simpl; [reflexivity |]. now rewrite Rmult_0_r, IH. Qed.

Lemma add_zeros_r (v : list R) : map2 Rplus v (repeat 0 (length v)) = v.
Proof. induction v as [| x v IH]; simpl; [reflexivity |]. now rewrite Rplus_0_r, IH. Qed.

Lemma add_zeros_l (v : list R) : map2 Rplus (repeat 0 (length v)) v = v.
Proof. induction v as [| x v IH]; simpl; [reflexivity |]. now rewrite Rplus_0_l, IH. Qed.

(** Rows whose class index is past the label are masked out. *)
Lemma masked_sum_cold (d : nat) (label : Z) (rows : list (list R)) (s k : nat) :
  Forall (fun row => length row = d) rows -> (label < Z.of_nat s)%Z ->
  sum_rows d
    (map2 (fun v t => map (fun x => x * t) v) rows
          (map (fun c => if (Z.of_nat c =? label)%Z then 1 else 0) (seq s k)))
  = repeat 0 d.
Proof.
  intros Hrows. revert s k. induction Hrows as [| row rows Hrow _ IH]; intros s k Hs.
  - reflexivity.
  - destruct k as [| k]; [reflexivity |]. simpl. unfold sum_rows in *. simpl.
    rewrite (IH (S s) k) by lia.
    destruct (Z.eqb_spec (Z.of_nat s) label) as [Heq | _]; [lia |].
    rewrite scale_zero, Hrow. rewrite <- (repeat_length 0 d) at 2.
    apply add_zeros_r.
Qed.

(** The row of the label survives the mask. *)
Lemma masked_sum_hot (d : nat) (rows : list (list R)) (s i k : nat) :
  Forall (fun row => length row = d) rows -> length rows = k -> (i < k)%nat ->
  sum_rows d
    (map2 (fun v t => map (fun x => x * t) v) rows
          (map (fun c => if (Z.of_nat c =? Z.of_nat (s + i))%Z then 1 else 0) (seq s k)))
  = nth i rows [].
Proof.
  intros Hrows. revert s i k.
  induction Hrows as [| row rows Hrow Hrest IH]; intros s i k Hlen Hi;
    simpl in Hlen; [lia |].
  destruct k as [| k]; [lia |]. simpl. unfold sum_rows in *. simpl.
  destruct i as [| i].
  - rewrite Nat.add_0_r, Z.eqb_refl, scale_one.
    pose proof (masked_sum_cold d (Z.of_nat s) rows (S s) k Hrest) as Hcold.
    unfold sum_rows in Hcold. rewrite Hcold by lia.
    rewrite <- Hrow. apply add_zeros_r.
  - destruct (Z.eqb_spec (Z.of_nat s) (Z.of_nat (s + S i))) as [Heq | _]; [lia |].
    replace (s + S i)%nat with (S s + i)%nat by lia.
    rewrite (IH (S s) i k) by lia.
    rewrite scale_zero, Hrow.
    assert (Hn : length (nth i rows []) = d).
    { rewrite Forall_forall in Hrest. apply Hrest. apply nth_In. lia. }
    rewrite <- Hn. apply add_zeros_l.
Qed.

(** Masking with [T_c] and summing over the classes picks, in every
    graph, the capsule of the label. *)
Lemma masked_capsules_true (k d : nat) (caps : list (list (list R))) (target : list Z) :
  Forall (shape2 k d) caps ->
  Forall (fun t => (0 <= t < Z.of_nat k)%Z) target ->
  masked_capsules d caps (map (one_hot k) target) = map2 true_capsule caps target.
Proof.
  unfold masked_capsules, tmap2. intros Hcaps. revert target.
  induction Hcaps as [| g caps [Hk Hg] _ IH]; intros [| t target] Ht; simpl;
    try reflexivity.
  f_equal; [| apply IH; now apply Forall_inv_tail in Ht].
  apply Forall_inv in Ht. unfold one_hot, true_capsule.
  assert (Hi : (Z.to_nat t < k)%nat) by lia.
  pose proof (masked_sum_hot d g 0 (Z.to_nat t) k Hg Hk Hi) as Hhot.
  rewrite Nat.add_0_l, Z2Nat.id in Hhot by lia. exact Hhot.
Qed.

(** The reconstruction loss of a run that returns. *)
Lemma reconstruction_value {Layers : Type} (eps thr : R) (self : Model Layers)
  (args : Args) (t : tensor) (target : list Z) (reconstructs : list (list R))
  (loss margin recon : R) (pred : list nat) :
  calculate_loss_at eps thr self args t target reconstructs
    = Ok (loss, margin, recon, pred) ->
  wf_tensor t -> Forall (fun l => (0 <= l)%Z) target ->
  recon = reconstruction_loss_spec eps thr
            (map (decode self) (map2 true_capsule (capsules_of t) target))
            reconstructs.
Proof.
  intros H Hwf Hpos. apply calculate_loss_at_inv in H.
  destruct H as (bs & nc & b & k & d & T_c & out & _ & _ & Hshape & _ & HT & Hs & _
                 & Hdec & Hrec & _).
  destruct (capsules_of_shape t b k d Hwf Hshape) as (_ & Hcb & Hcaps).
  pose proof (index_put_range bs nc target T_c HT) as Hrange.
  rewrite (index_put_one_hot bs nc target T_c HT Hpos) in Hs, Hdec.
  assert (Hmask : masked_capsules d (capsules_of t) (map (one_hot nc) target)
                  = map2 true_capsule (capsules_of t) target).
  { destruct target as [| t0 target].
    - unfold masked_capsules, tmap2. destruct (capsules_of t); reflexivity.
    - assert (Hk : nc = k).
      { pose proof (norms_shape b k (capsules_of t) Hcb) as [_ Hrows].
        { eapply Forall_impl; [| exact Hcaps]. now intros g [Hg _]. }
        simpl in Hs. destruct (norms (capsules_of t)) as [| r0 n]; [discriminate |].
        apply andb_prop in Hs. destruct Hs as [Hl _]. apply Nat.eqb_eq in Hl.
        rewrite length_one_hot in Hl. apply Forall_inv in Hrows. lia. }
      subst nc. apply masked_capsules_true; [exact Hcaps |].
      rewrite Forall_forall in Hpos, Hrange. apply Forall_forall. intros x Hx.
      specialize (Hpos x Hx). specialize (Hrange x Hx).
      unfold label_in_range in Hrange. lia. }
  rewrite Hmask in Hdec. apply decoder_value in Hdec. subst out.
  now apply reconstruction_loss_value.
Qed.

(** C3.  The reconstruction loss [calculate_loss] returns: each target
    normalised by its own maximum plus epsilon; the capsule of the true
    class decoded by two layers, ReLU then sigmoid; the target
    dimensions split into those whose original value is below 1e-5 and
    the rest; the largest squared error of each set, summed, and the
    mean of that over the batch. *)
Theorem reconstruction_loss_is_spec {Layers : Type} (self : Model Layers) (args : Args)
  (capsule_input : tensor) (target : list Z) (reconstructs : list (list R))
  (loss margin_loss reconstruction_loss : R) (pred : list nat) :
  calculate_loss self args capsule_input target reconstructs
    = Ok (loss, margin_loss, reconstruction_loss, pred) ->
  wf_tensor capsule_input -> Forall (fun l => (0 <= l)%Z) target ->
  reconstruction_loss
  = reconstruction_loss_spec epsilon 1e-5
      (map (decode self) (map2 true_capsule (capsules_of capsule_input) target))
      reconstructs.
Proof. apply reconstruction_value. Qed.

Lemma reconstruction_loss_is_spec_witness :
  exists loss margin recon pred,
    calculate_loss example_model example_args example_capsules example_target
      example_reconstructs = Ok (loss, margin, recon, pred) /\
    recon = reconstruction_loss_spec epsilon 1e-5
              (map (decode example_model)
                   (map2 true_capsule (capsules_of example_capsules) example_target))
              example_reconstructs.
Proof.
  destruct (example_run example_args example_capsules example_reconstructs eq_refl eq_refl
              example_reconstructs_ok)
    as (l & m & r & p & H).
  exists l, m, r, p. split; [exact H |].
  apply (reconstruction_loss_is_spec example_model example_args example_capsules
           example_target example_reconstructs l m r p H eq_refl
           example_labels_nonneg).
Defined.

(** ** Rescaled targets (C6) *)

Section Rescaling.

Variable c : R.
Hypothesis c_pos : 0 < c.

Lemma max_list_scale (row : list R) :
  max_list (map (Rmult c) row) = (m <- max_list row ;; Ok (c * m)).
Proof.
  destruct row as [| x t]; simpl; [reflexivity |]. f_equal.
  revert x; induction t as [| y t IH]; intros x; simpl; [reflexivity |].
  rewrite (RmaxRmult x y c) by lra. apply IH.
Qed.

Lemma maxima_scale (reconstructs : list (list R)) :
  mapM max_list (rescale c reconstructs)
  = (ms <- mapM max_list reconstructs ;; Ok (map (Rmult c) ms)).
Proof.
  unfold rescale, tmap.
  induction reconstructs as [| row recs IH]; simpl; [reflexivity |].
  rewrite (max_list_scale row), IH.
  destruct (max_list row); simpl; [| reflexivity].
  destruct (mapM max_list recs); reflexivity.
Qed.

Lemma divide_scale (eps x m : R) :
  divide (c * x) (c * m + eps) = divide x (m + eps / c).
Proof.
  unfold divide.
  assert (Heq : c * m + eps = c * (m + eps / c)) by (field; lra).
  rewrite Heq. set (d := m + eps / c) in *. clearbody d.
  destruct (Req_dec_T (c * d) 0) as [H0 | H0];
    destruct (Req_dec_T d 0) as [H1 | H1]; try reflexivity.
  - apply Rmult_integral in H0. destruct H0; [lra | contradiction].
  - exfalso. apply H0. rewrite H1. ring.
  - f_equal. field. split; [assumption | lra].
Qed.

Lemma value_scale (eps : R) (reconstructs : list (list R)) (rmax : list R) :
  mapM (fun '(row, m) => mapM (fun x => divide x (m + eps)) row)
       (combine (rescale c reconstructs) (map (Rmult c) rmax))
  = mapM (fun '(row, m) => mapM (fun x => divide x (m + eps / c)) row)
         (combine reconstructs rmax).
Proof.
  unfold rescale, tmap. revert rmax.
  induction reconstructs as [| row recs IH]; intros [| m rmax]; simpl; try reflexivity.
  rewrite IH. f_equal.
  induction row as [| x row IHrow]; simpl; [reflexivity |].
  now rewrite IHrow, divide_scale.
Qed.

(** [c * x] is below the threshold iff [x] is below the threshold over [c]. *)
Lemma indicator_scale (thr : R) (reconstructs : list (list R)) :
  tmap (fun x => if Rlt_dec x thr then 1 else 0) (rescale c reconstructs)
  = tmap (fun x => if Rlt_dec x (thr / c) then 1 else 0) reconstructs.
Proof.
  unfold rescale. rewrite tmap_tmap. unfold tmap.
  apply map_ext. intros row. apply map_ext. intros x.
  assert (Hiff : c * x < thr <-> x < thr / c).
  { split; intros H.
    - apply Rmult_lt_reg_l with c; [exact c_pos |].
      replace (c * (thr / c)) with thr by (field; lra). exact H.
    - replace thr with (c * (thr / c)) by (field; lra).
      now apply Rmult_lt_compat_l. }
  destruct (Rlt_dec (c * x) thr), (Rlt_dec x (thr / c)); tauto.
Qed.

Lemma reconstruction_loss_scale (eps thr : R) (out reconstructs : list (list R)) :
  reconstruction_loss_of eps thr out (rescale c reconstructs)
  = reconstruction_loss_of (eps / c) (thr / c) out reconstructs.
Proof.
  unfold reconstruction_loss_of.
  rewrite (indicator_scale thr reconstructs), (maxima_scale reconstructs).
  destruct (mapM max_list reconstructs) as [rmax |]; simpl; [| reflexivity].
  now rewrite (value_scale eps reconstructs rmax).
Qed.

End Rescaling.

(** C6, amended.  Multiplying every target by [c > 0] has the effect of
    dividing by [c] the epsilon of the normalisation and the 1e-5 that
    bounds the negative set: [calculate_loss] with targets [c * r]
    returns what it would return for [r] with [epsilon / c] and
    [1e-5 / c] in their place. *)
Theorem calculate_loss_rescaled_targets {Layers : Type} (self : Model Layers)
  (args : Args) (capsule_input : tensor) (target : list Z)
  (reconstructs : list (list R)) (c : R) :
  0 < c ->
  calculate_loss self args capsule_input target (rescale c reconstructs)
  = calculate_loss_at (epsilon / c) (1e-5 / c) self args capsule_input target
      reconstructs.
Proof.
  intros Hc. unfold calculate_loss, calculate_loss_at.
  repeat match goal with
         | |- bind ?x _ = bind ?x _ =>
             let a := fresh "a" in destruct x as [a |]; cbn [bind]; [| reflexivity]
         | |- (let '(_, _) := ?v in _) = _ => destruct v
         end.
  now rewrite (reconstruction_loss_scale c Hc epsilon 1e-5 _ reconstructs).
Qed.

Lemma calculate_loss_rescaled_targets_witness :
  calculate_loss example_model example_args example_capsules example_target
    (rescale 100 scaling_reconstructs)
  = calculate_loss_at (epsilon / 100) (1e-5 / 100) example_model example_args
      example_capsules example_target scaling_reconstructs.
Proof.
  apply (calculate_loss_rescaled_targets example_model example_args example_capsules
           example_target scaling_reconstructs 100).
  lra.
Defined.

Lemma sigmoid_0 : sigmoid 0 = 1 / 2.
Proof. unfold sigmoid. rewrite Ropp_0, exp_0. lra. Qed.

(** With all weights 0 the decoder answers 1/2 in every dimension. *)
Lemma example_decode (args : Args) (v : list R) :
  decode (mkModel unit args [3%nat] 2 3 2 tt (zero_linear 2 1) (zero_linear 1 3) false) v
  = [1 / 2; 1 / 2; 1 / 2].
Proof.
  unfold decode, affine, dot; simpl.
  set (h := relu _).
  replace (0 * h + 0 + 0) with 0 by ring.
  rewrite sigmoid_0. reflexivity.
Qed.

Lemma quotient_bounds (a D lo hi : R) :
  0 < D -> lo * D <= a -> a <= hi * D -> lo <= a / D <= hi.
Proof.
  intros HD Hlo Hhi.
  assert (H : 0 <= / D) by (left; apply Rinv_0_lt_compat; lra).
  pose proof (Rmult_le_compat_r (/ D) _ _ H Hlo) as H1.
  pose proof (Rmult_le_compat_r (/ D) _ _ H Hhi) as H2.
  rewrite Rmult_assoc, Rinv_r, Rmult_1_r in H1, H2 by lra.
  unfold Rdiv. split; assumption.
Qed.

Lemma scaling_graph_before :
  0.48 <= recon_graph epsilon 1e-5 [1 / 2; 1 / 2; 1 / 2] [2; 1; 1e-6].
Proof.
  unfold recon_graph, select, is_negative, max_error; simpl.
  assert (Hmax : Rmax 1 (Rmax 1e-6 2) = 2).
  { rewrite (Rmax_right 1e-6 2) by lra. apply Rmax_right. lra. }
  rewrite Hmax.
  destruct (Rlt_dec 2 1e-5); [lra |].
  destruct (Rlt_dec 1 1e-5); [lra |].
  destruct (Rlt_dec 1e-6 1e-5); [| lra]. simpl.
  pose proof epsilon_pos as He. assert (He' : epsilon < 0.01) by (unfold epsilon; lra).
  destruct (quotient_bounds 2 (2 + epsilon) 0.99 1) as [H1 H1']; try lra.
  destruct (quotient_bounds 1e-6 (2 + epsilon) 0 0.01) as [H3 H3']; try lra.
  set (v1 := 2 / (2 + epsilon)) in *. set (v3 := 1e-6 / (2 + epsilon)) in *.
  pose proof (Rmax_l ((1 / 2 - v3) * ((1 / 2 - v3) * 1)) 0) as Hn.
  pose proof (Rmax_l ((1 / 2 - v1) * ((1 / 2 - v1) * 1))
                (Rmax ((1 / 2 - 1 / (2 + epsilon)) * ((1 / 2 - 1 / (2 + epsilon)) * 1)) 0))
    as Hp.
  nra.
Qed.

Lemma scaling_graph_after :
  recon_graph epsilon 1e-5 [1 / 2; 1 / 2; 1 / 2] [100 * 2; 100 * 1; 100 * 1e-6] <= 0.25.
Proof.
  unfold recon_graph, select, is_negative, max_error; simpl.
  assert (Hmax : Rmax (100 * 1) (Rmax (100 * 1e-6) (100 * 2)) = 200).
  { rewrite (Rmax_right (100 * 1e-6) (100 * 2)) by lra. rewrite Rmax_right; lra. }
  rewrite Hmax.
  destruct (Rlt_dec (100 * 2) 1e-5); [lra |].
  destruct (Rlt_dec (100 * 1) 1e-5); [lra |].
  destruct (Rlt_dec (100 * 1e-6) 1e-5); [lra |]. simpl.
  pose proof epsilon_pos as He.
  destruct (quotient_bounds (100 * 2) (200 + epsilon) 0 1) as [H1 H1']; try lra.
  destruct (quotient_bounds (100 * 1) (200 + epsilon) 0 1) as [H2 H2']; try lra.
  destruct (quotient_bounds (100 * 1e-6) (200 + epsilon) 0 1) as [H3 H3']; try lra.
  set (v1 := 100 * 2 / (200 + epsilon)) in *.
  set (v2 := 100 * 1 / (200 + epsilon)) in *.
  set (v3 := 100 * 1e-6 / (200 + epsilon)) in *.
  rewrite Rplus_0_l.
  repeat apply Rmax_lub; nra.
Qed.

(** C6, as stated, fails.  Decoder output 1/2 everywhere, targets
    [2, 1, 1e-6]: the last dimension is in the negative set and each
    set has a largest error near 1/4, a loss near 1/2.  Multiplied by
    100 the last dimension is 1e-4, no longer below the threshold; the
    negative set is empty and the loss is at most 1/4. *)
Lemma reconstruction_loss_changes_with_scale :
  exists l m r p l' m' r' p',
    calculate_loss example_model example_args example_capsules example_target
      scaling_reconstructs = Ok (l, m, r, p) /\
    calculate_loss example_model example_args example_capsules example_target
      (rescale 100 scaling_reconstructs) = Ok (l', m', r', p') /\
    r <> r'.
Proof.
  destruct (example_run example_args example_capsules scaling_reconstructs
              eq_refl eq_refl) as (l & m & r & p & H).
  { split; [split; [reflexivity | repeat constructor] |]. repeat constructor; lra. }
  destruct (example_run example_args example_capsules (rescale 100 scaling_reconstructs)
              eq_refl eq_refl) as (l' & m' & r' & p' & H').
  { split; [split; [reflexivity | repeat constructor] |].
    repeat constructor; simpl; lra. }
  exists l, m, r, p, l', m', r', p'. split; [exact H |]. split; [exact H' |].
  apply reconstruction_value in H, H'; try reflexivity; try exact example_labels_nonneg.
  unfold example_model in H, H'.
  rewrite (map_ext _ _ (example_decode example_args)) in H, H'.
  unfold reconstruction_loss_spec in H, H'. simpl in H, H'.
  pose proof scaling_graph_before as Hb. pose proof scaling_graph_after as Ha.
  set (before := recon_graph _ _ _ _) in *.
  set (after := recon_graph _ _ _ _) in H', Ha.
  lra.
Qed.

(** * More of the code *)

(** ** The prediction (lines 115-116) *)

Lemma argmax_from_spec (l : list R) (best : R) (besti i : nat) :
  (argmax_from best besti i l = besti /\ Forall (fun x => x <= best) l) \/
  ((i <= argmax_from best besti i l)%nat /\
   exists v, nth_error l (argmax_from best besti i l - i) = Some v /\
             best <= v /\ Forall (fun x => x <= v) l).
Proof.
  revert best besti i. induction l as [| x l IH]; intros best besti i; simpl.
  - left. split; [reflexivity | constructor].
  - destruct (Rlt_dec best x) as [Hlt | Hge].
    + right. destruct (IH x i (S i)) as [[Hj Hall] | (Hj & v & Hv & Hxv & Hall)].
      * rewrite Hj. split; [lia |]. exists x. rewrite Nat.sub_diag. simpl.
        repeat split; [lra |]. constructor; [lra | exact Hall].
      * split; [lia |]. exists v.
        replace (argmax_from x i (S i) l - i)%nat
          with (S (argmax_from x i (S i) l - S i)) by lia.
        simpl. repeat split; [exact Hv | lra |]. constructor; [exact Hxv | exact Hall].
    + destruct (IH best besti (S i)) as [[Hj Hall] | (Hj & v & Hv & Hbv & Hall)].
      * left. split; [exact Hj |]. constructor; [lra | exact Hall].
      * right. split; [lia |]. exists v.
        replace (argmax_from best besti (S i) l - i)%nat
          with (S (argmax_from best besti (S i) l - S i)) by lia.
        simpl. repeat split; [exact Hv | exact Hbv |]. constructor; [lra | exact Hall].
Qed.

Lemma argmax_spec (l : list R) (p : nat) :
  argmax l = Ok p ->
  exists v, nth_error l p = Some v /\ Forall (fun x => x <= v) l.
Proof.
  destruct l as [| x t]; simpl; [discriminate |].
  intros H; injection H as <-.
  destruct (argmax_from_spec t x 0 1) as [[Hj Hall] | (Hj & v & Hv & Hxv & Hall)].
  - rewrite Hj. exists x. split; [reflexivity |]. constructor; [lra | exact Hall].
  - exists v. split.
    + destruct (argmax_from x 0 1 t) as [| j]; [lia |].
      simpl in *. now rewrite Nat.sub_0_r in Hv.
    + constructor; [exact Hxv | exact Hall].
Qed.

(** The prediction of every graph is a class of the graph, and no class
    has a capsule of larger norm. *)
Theorem pred_has_largest_norm {Layers : Type} (self : Model Layers) (args : Args)
  (capsule_input : tensor) (target : list Z) (reconstructs : list (list R))
  (loss margin_loss reconstruction_loss : R) (pred : list nat) :
  calculate_loss self args capsule_input target reconstructs
    = Ok (loss, margin_loss, reconstruction_loss, pred) ->
  Forall2 (fun v_g p => exists v, nth_error v_g p = Some v /\
                                  Forall (fun x => x <= v) v_g)
          (norms (capsules_of capsule_input)) pred.
Proof.
  intros H. apply calculate_loss_at_inv in H.
  destruct H as (bs & nc & b & k & d & T_c & out & _ & _ & _ & Hpred & _).
  apply mapM_Forall2 in Hpred.
  eapply Forall2_impl; [| exact Hpred]. intros v_g p Hp. now apply argmax_spec.
Qed.

Lemma pred_has_largest_norm_witness :
  exists loss margin recon pred,
    calculate_loss example_model example_args example_capsules example_target
      example_reconstructs = Ok (loss, margin, recon, pred) /\
    Forall2 (fun v_g p => exists v, nth_error v_g p = Some v /\
                                    Forall (fun x => x <= v) v_g)
            (norms (capsules_of example_capsules)) pred.
Proof.
  destruct (example_run example_args example_capsules example_reconstructs eq_refl eq_refl
              example_reconstructs_ok) as (l & m & r & p & H).
  exists l, m, r, p. split; [exact H |].
  apply (pred_has_largest_norm example_model example_args example_capsules
           example_target example_reconstructs l m r p H).
Defined.

(** The prediction is read off the capsules alone: runs on the same
    capsule tensor predict the same classes, whatever the labels, the
    targets, the decoder and the options. *)
Theorem pred_ignores_labels {Layers1 Layers2 : Type}
  (self1 : Model Layers1) (self2 : Model Layers2) (args1 args2 : Args)
  (capsule_input : tensor) (target1 target2 : list Z)
  (reconstructs1 reconstructs2 : list (list R))
  (loss1 margin1 recon1 loss2 margin2 recon2 : R) (pred1 pred2 : list nat) :
  calculate_loss self1 args1 capsule_input target1 reconstructs1
    = Ok (loss1, margin1, recon1, pred1) ->
  calculate_loss self2 args2 capsule_input target2 reconstructs2
    = Ok (loss2, margin2, recon2, pred2) ->
  pred1 = pred2.
Proof.
  intros H1 H2. apply calculate_loss_at_inv in H1, H2.
  destruct H1 as (? & ? & ? & ? & ? & ? & ? & _ & _ & _ & Hp1 & _).
  destruct H2 as (? & ? & ? & ? & ? & ? & ? & _ & _ & _ & Hp2 & _).
  congruence.
Qed.

(** Runs of the example model on other labels and targets. *)
Lemma example_run_labels (args : Args) (t : tensor) (target : list Z)
  (reconstructs : list (list R)) :
  shape t = [2; 2; 2]%nat -> wf_tensor t ->
  length target = 2%nat -> Forall (label_in_range 2) target ->
  shape2 2 3 reconstructs /\ Forall (Forall (fun x => 0 <= x)) reconstructs ->
  exists loss margin recon pred,
    calculate_loss
      (mkModel unit args [3%nat] 2 3 2 tt (zero_linear 2 1) (zero_linear 1 3) false)
      args t target reconstructs
    = Ok (loss, margin, recon, pred).
Proof.
  intros Hs Hwf Hlen Hrange [Hrec Hpos].
  destruct (calculate_loss_at_total epsilon 1e-5
              (mkModel unit args [3%nat] 2 3 2 tt (zero_linear 2 1) (zero_linear 1 3) false)
              args 2 2 2 1 3 t target reconstructs epsilon_pos)
    as ([[[l m] r] p] & H).
  - constructor; try assumption; try apply example_decoder_ok; try reflexivity; lia.
  - exists l, m, r, p. exact H.
Qed.

Lemma scaling_reconstructs_ok :
  shape2 2 3 scaling_reconstructs /\
  Forall (Forall (fun x => 0 <= x)) scaling_reconstructs.
Proof.
  unfold scaling_reconstructs. split; [split; [reflexivity | repeat constructor] |].
  repeat constructor; lra.
Qed.

Lemma pred_ignores_labels_witness :
  exists l1 m1 r1 p1 l2 m2 r2 p2,
    calculate_loss example_model example_args example_capsules example_target
      example_reconstructs = Ok (l1, m1, r1, p1) /\
    calculate_loss
      (mkModel unit args_lambda_zero [3%nat] 2 3 2 tt (zero_linear 2 1)
               (zero_linear 1 3) false)
      args_lambda_zero example_capsules [1; -1]%Z scaling_reconstructs
    = Ok (l2, m2, r2, p2) /\
    p1 = p2.
Proof.
  destruct (example_run example_args example_capsules example_reconstructs eq_refl eq_refl
              example_reconstructs_ok) as (l1 & m1 & r1 & p1 & H1).
  destruct (example_run_labels args_lambda_zero example_capsules [1; -1]%Z
              scaling_reconstructs eq_refl eq_refl eq_refl)
    as (l2 & m2 & r2 & p2 & H2).
  { unfold label_in_range. repeat constructor; simpl; lia. }
  { exact scaling_reconstructs_ok. }
  exists l1, m1, r1, p1, l2, m2, r2, p2. split; [exact H1 |]. split; [exact H2 |].
  exact (pred_ignores_labels _ _ _ _ _ _ _ _ _ _ _ _ _ _ _ _ _ H1 H2).
Defined.

(** ** A margin loss of zero (lines 118-128) *)

Lemma margin_class_met (lam v : R) (hot : bool) :
  (if hot then 0.9 <= v else v <= 0.1) ->
  margin_class lam (if hot then 1 else 0) v = 0.
Proof.
  unfold margin_class. intros H. destruct hot.
  - rewrite Rmax_left by lra. ring.
  - rewrite (Rmax_left 0 (v - 0.1)) by lra. ring.
Qed.

Lemma margin_classes_met (lam : R) (label : Z) (v_g : list R) (s k : nat) :
  (forall c v, nth_error v_g c = Some v ->
               if (Z.of_nat (s + c) =? label)%Z then 0.9 <= v else v <= 0.1) ->
  sum_list (map2 (margin_class lam)
              (map (fun c => if (Z.of_nat c =? label)%Z then 1 else 0) (seq s k))
              v_g) = 0.
Proof.
  revert s k. induction v_g as [| y v_g IH]; intros s k Hmet.
  - destruct k; reflexivity.
  - destruct k as [| k]; [reflexivity |]. simpl.
    rewrite (IH (S s) k).
    + pose proof (Hmet 0%nat y eq_refl) as H0. rewrite Nat.add_0_r in H0.
      rewrite (margin_class_met lam y (Z.of_nat s =? label)%Z H0). ring.
    + intros c v Hc. specialize (Hmet (S c) v Hc).
      now replace (S s + c)%nat with (s + S c)%nat by lia.
Qed.

Lemma margin_loss_spec_met (lam : R) (v_mag : list (list R)) (target : list Z) :
  margins_met v_mag target -> margin_loss_spec lam v_mag target = 0.
Proof.
  intros Hmet. unfold margin_loss_spec.
  replace (sum_list (map2 (margin_graph lam) v_mag target)) with 0;
    [unfold Rdiv; ring |].
  symmetry. apply sum_list_zero.
  induction Hmet as [| v_g label v_mag target Hg _ IH]; simpl; constructor;
    [| exact IH].
  unfold margin_graph, one_hot. now apply margin_classes_met.
Qed.

(** Where the margins are met (true class of norm at least 0.9, every
    other class at most 0.1, in every graph) the margin loss is 0,
    whatever [lambda_val]. *)
Theorem margin_loss_zero_if_margins_met {Layers : Type} (self : Model Layers)
  (args : Args) (capsule_input : tensor) (target : list Z)
  (reconstructs : list (list R)) (loss margin_loss reconstruction_loss : R)
  (pred : list nat) :
  calculate_loss self args capsule_input target reconstructs
    = Ok (loss, margin_loss, reconstruction_loss, pred) ->
  Forall (fun l => (0 <= l)%Z) target ->
  margins_met (norms (capsules_of capsule_input)) target ->
  margin_loss = 0.
Proof.
  intros H Hpos Hmet.
  rewrite (margin_loss_value epsilon 1e-5 self args capsule_input target reconstructs
             loss margin_loss reconstruction_loss pred H Hpos).
  now apply margin_loss_spec_met.
Qed.

Lemma example_margins_met :
  margins_met (norms (capsules_of example_capsules)) example_target.
Proof.
  rewrite example_norms. unfold margins_met, example_target.
  constructor; [| constructor; [| constructor]];
    intros [| [| [| c]]] v Hv; simpl in Hv; try discriminate;
    injection Hv as <-; simpl; lra.
Qed.

Lemma margin_loss_zero_if_margins_met_witness :
  exists loss margin recon pred,
    calculate_loss example_model example_args example_capsules example_target
      example_reconstructs = Ok (loss, margin, recon, pred) /\
    margin = 0.
Proof.
  destruct (example_run example_args example_capsules example_reconstructs eq_refl eq_refl
              example_reconstructs_ok) as (l & m & r & p & H).
  exists l, m, r, p. split; [exact H |].
  apply (margin_loss_zero_if_margins_met example_model example_args example_capsules
           example_target example_reconstructs l m r p H example_labels_nonneg
           example_margins_met).
Defined.

(** ** A bound on the reconstruction loss (lines 134-146) *)

Lemma quotient_upper (a D hi : R) : 0 < D -> a <= hi * D -> a / D <= hi.
Proof.
  intros HD Hhi.
  assert (H : 0 <= / D) by (left; apply Rinv_0_lt_compat; lra).
  pose proof (Rmult_le_compat_r (/ D) _ _ H Hhi) as H2.
  rewrite Rmult_assoc, Rinv_r, Rmult_1_r in H2 by lra. exact H2.
Qed.

Lemma sigmoid_bounds (x : R) : 0 <= sigmoid x <= 1.
Proof.
  unfold sigmoid. pose proof (exp_pos (- x)) as He.
  apply quotient_bounds; lra.
Qed.

Lemma maximum_upper (r : list R) : Forall (fun x => x <= maximum r) r.
Proof.
  destruct r as [| x t]; [constructor |]. simpl.
  assert (H : forall a, a <= fold_right Rmax a t /\
                        Forall (fun y => y <= fold_right Rmax a t) t).
  { induction t as [| y t IH]; intros a; simpl; [split; [lra | constructor] |].
    destruct (IH a) as [Ha Ht]. split.
    - eapply Rle_trans; [exact Ha | apply Rmax_r].
    - constructor; [apply Rmax_l |].
      eapply Forall_impl; [| exact Ht]. intros z Hz. simpl in Hz.
      eapply Rle_trans; [exact Hz | apply Rmax_r]. }
  destruct (H x) as [Hx Ht]. constructor; assumption.
Qed.

(** A target without negative entries, divided by its maximum plus a
    positive epsilon, lies in [0, 1]. *)
Lemma normalised_target_bounds (eps : R) (r : list R) :
  0 < eps -> Forall (fun x => 0 <= x) r ->
  Forall (fun v => 0 <= v <= 1) (map (fun x => x / (maximum r + eps)) r).
Proof.
  intros Heps Hpos. apply Forall_map.
  pose proof (maximum_upper r) as Hup. rewrite Forall_forall in *.
  intros x Hx. specialize (Hpos x Hx). specialize (Hup x Hx).
  apply quotient_bounds; lra.
Qed.

Lemma max_error_upper (c : R) (errs : list R) :
  0 <= c -> Forall (fun e => e <= c) errs -> max_error errs <= c.
Proof.
  intros Hc. induction 1 as [| e errs He _ IH]; simpl; [exact Hc |].
  now apply Rmax_lub.
Qed.

Lemma Forall_select (P : R -> Prop) (p : R -> bool) (r errs : list R) :
  Forall P errs -> Forall P (select p r errs).
Proof.
  intros H. unfold select. apply Forall_map, Forall_forall. intros [x e] Hin.
  apply filter_In in Hin. destruct Hin as [Hin _]. apply in_combine_r in Hin.
  rewrite Forall_forall in H. now apply H.
Qed.

Lemma recon_graph_upper (eps thr : R) (out r : list R) :
  0 < eps -> Forall (fun x => 0 <= x) r -> Forall (fun o => 0 <= o <= 1) out ->
  recon_graph eps thr out r <= 2.
Proof.
  intros Heps Hpos Hout. unfold recon_graph.
  assert (Herrs : Forall (fun e => e <= 1)
                    (map2 (fun o v => (o - v) ^ 2) out
                          (map (fun x => x / (maximum r + eps)) r))).
  { eapply Forall_map2; [| exact Hout | exact (normalised_target_bounds eps r Heps Hpos)].
    intros o v Ho Hv. simpl in *. nra. }
  pose proof (max_error_upper 1 _ Rle_0_1
                (Forall_select _ (is_negative thr) r _ Herrs)).
  pose proof (max_error_upper 1 _ Rle_0_1
                (Forall_select _ (fun x => negb (is_negative thr x)) r _ Herrs)).
  lra.
Qed.

Lemma sum_list_upper (c : R) (l : list R) :
  Forall (fun x => x <= c) l -> sum_list l <= c * INR (length l).
Proof.
  induction 1 as [| x l Hx _ IH]; [simpl; lra |].
  cbn [sum_list fold_right length]. fold (sum_list l). rewrite S_INR. lra.
Qed.

Lemma reconstruction_loss_spec_upper (eps thr : R) (outs reconstructs : list (list R)) :
  0 < eps ->
  Forall (Forall (fun x => 0 <= x)) reconstructs ->
  Forall (Forall (fun o => 0 <= o <= 1)) outs ->
  reconstruction_loss_spec eps thr outs reconstructs <= 2.
Proof.
  intros Heps Hpos Hout. unfold reconstruction_loss_spec.
  assert (Hsum : sum_list (map2 (recon_graph eps thr) outs reconstructs)
                 <= 2 * INR (length reconstructs)).
  { eapply Rle_trans.
    - apply sum_list_upper.
      eapply Forall_map2; [| exact Hout | exact Hpos].
      intros o r Ho Hr. now apply recon_graph_upper.
    - apply Rmult_le_compat_l; [lra |]. apply le_INR. rewrite length_map2. lia. }
  destruct reconstructs as [| r0 recs].
  - destruct outs; simpl; unfold Rdiv; rewrite Rmult_0_l; lra.
  - assert (Hn : 0 < INR (length (r0 :: recs))) by (apply lt_0_INR; simpl; lia).
    apply quotient_upper; assumption.
Qed.

(** With targets that are not negative, the reconstruction loss is at
    most 2: the decoder ends in a sigmoid and the normalised targets
    lie in [0, 1], so no squared error exceeds 1. *)
Theorem reconstruction_loss_at_most_two {Layers : Type} (self : Model Layers)
  (args : Args) (capsule_input : tensor) (target : list Z)
  (reconstructs : list (list R)) (loss margin_loss reconstruction_loss : R)
  (pred : list nat) :
  calculate_loss self args capsule_input target reconstructs
    = Ok (loss, margin_loss, reconstruction_loss, pred) ->
  Forall (Forall (fun x => 0 <= x)) reconstructs ->
  reconstruction_loss <= 2.
Proof.
  intros H Hpos. apply calculate_loss_at_inv in H.
  destruct H as (bs & nc & b & k & d & T_c & out & _ & _ & _ & _ & _ & _ & _
                 & Hdec & Hrec & _).
  apply decoder_value in Hdec. apply reconstruction_loss_value in Hrec. subst.
  apply reconstruction_loss_spec_upper; [exact epsilon_pos | exact Hpos |].
  apply Forall_map, Forall_forall. intros v _. unfold decode.
  apply Forall_map, Forall_forall. intros x _. apply sigmoid_bounds.
Qed.

Lemma reconstruction_loss_at_most_two_witness :
  exists loss margin recon pred,
    calculate_loss example_model example_args example_capsules example_target
      example_reconstructs = Ok (loss, margin, recon, pred) /\
    recon <= 2.
Proof.
  destruct (example_run example_args example_capsules example_reconstructs eq_refl eq_refl
              example_reconstructs_ok) as (l & m & r & p & H).
  exists l, m, r, p. split; [exact H |].
  apply (reconstruction_loss_at_most_two example_model example_args example_capsules
           example_target example_reconstructs l m r p H).
  apply example_reconstructs_ok.
Defined.

(** ** What the decoder sees (lines 130-135) *)

(** The reconstruction loss reads the capsule tensor only through the
    capsules of the labelled classes: two capsule tensors that agree on
    those give the same reconstruction loss. *)
Theorem reconstruction_loss_reads_true_capsules {Layers : Type} (self : Model Layers)
  (args1 args2 : Args) (capsules1 capsules2 : tensor) (target : list Z)
  (reconstructs : list (list R))
  (loss1 margin1 recon1 loss2 margin2 recon2 : R) (pred1 pred2 : list nat) :
  wf_tensor capsules1 -> wf_tensor capsules2 ->
  Forall (fun l => (0 <= l)%Z) target ->
  map2 true_capsule (capsules_of capsules1) target
  = map2 true_capsule (capsules_of capsules2) target ->
  calculate_loss self args1 capsules1 target reconstructs
    = Ok (loss1, margin1, recon1, pred1) ->
  calculate_loss self args2 capsules2 target reconstructs
    = Ok (loss2, margin2, recon2, pred2) ->
  recon1 = recon2.
Proof.
  intros Hwf1 Hwf2 Hpos Hsame H1 H2.
  rewrite (reconstruction_value epsilon 1e-5 self args1 capsules1 target reconstructs
             loss1 margin1 recon1 pred1 H1 Hwf1 Hpos).
  rewrite (reconstruction_value epsilon 1e-5 self args2 capsules2 target reconstructs
             loss2 margin2 recon2 pred2 H2 Hwf2 Hpos).
  now rewrite Hsame.
Qed.

Lemma reconstruction_loss_reads_true_capsules_witness :
  exists l1 m1 r1 p1 l2 m2 r2 p2,
    calculate_loss example_model example_args example_capsules example_target
      example_reconstructs = Ok (l1, m1, r1, p1) /\
    calculate_loss example_model example_args other_capsules example_target
      example_reconstructs = Ok (l2, m2, r2, p2) /\
    r1 = r2.
Proof.
  destruct (example_run example_args example_capsules example_reconstructs eq_refl eq_refl
              example_reconstructs_ok) as (l1 & m1 & r1 & p1 & H1).
  destruct (example_run example_args other_capsules example_reconstructs eq_refl eq_refl
              example_reconstructs_ok) as (l2 & m2 & r2 & p2 & H2).
  exists l1, m1, r1, p1, l2, m2, r2, p2. split; [exact H1 |]. split; [exact H2 |].
  apply (reconstruction_loss_reads_true_capsules example_model example_args example_args
           example_capsules other_capsules example_target example_reconstructs
           l1 m1 r1 l2 m2 r2 p1 p2 eq_refl eq_refl example_labels_nonneg eq_refl H1 H2).
Defined.

(** ** Shapes and labels the loss rejects (lines 110-125) *)

(** A capsule tensor of rank three with an axis of size one (a single
    graph, a single class, or capsules of one entry) loses that axis to
    [squeeze], and [sum(dim=2)] raises IndexError. *)
Theorem capsule_axis_of_one_raises {Layers : Type} (self : Model Layers) (args : Args)
  (capsule_input : tensor) (target : list Z) (reconstructs : list (list R))
  (b k d : nat) :
  shape capsule_input = [b; k; d] ->
  b = 1%nat \/ k = 1%nat \/ d = 1%nat ->
  calculate_loss self args capsule_input target reconstructs = Raise IndexError.
Proof.
  intros Hshape Hone. unfold calculate_loss, calculate_loss_at.
  rewrite Hshape. cbn [shape_index nth_error bind].
  unfold rank3_view, squeeze. rewrite Hshape. cbn [shape filter].
  destruct (Nat.eqb_spec b 1), (Nat.eqb_spec k 1), (Nat.eqb_spec d 1);
    cbn [negb bind]; try reflexivity.
  lia.
Qed.

Lemma capsule_axis_of_one_raises_witness :
  calculate_loss example_model example_args (mkTensor [2; 1; 2]%nat [1; 0; 0; 1])
    example_target example_reconstructs = Raise IndexError.
Proof.
  apply (capsule_axis_of_one_raises example_model example_args
           (mkTensor [2; 1; 2]%nat [1; 0; 0; 1]) example_target example_reconstructs
           2 1 2 eq_refl).
  right. left. reflexivity.
Defined.

Lemma wrap_index_range (k : nat) (t : Z) (i : nat) :
  wrap_index k t = Ok i -> label_in_range k t.
Proof.
  unfold wrap_index, label_in_range.
  destruct ((0 <=? t) && (t <? Z.of_nat k))%Z eqn:H1.
  - intros _. apply andb_prop in H1. rewrite Z.leb_le, Z.ltb_lt in H1. lia.
  - destruct ((- Z.of_nat k <=? t) && (t <? 0))%Z eqn:H2; [| discriminate].
    intros _. apply andb_prop in H2. rewrite Z.leb_le, Z.ltb_lt in H2. lia.
Qed.

Lemma wrap_index_raises (k : nat) (t : Z) (e : exn) :
  wrap_index k t = Raise e -> e = IndexError.
Proof.
  unfold wrap_index.
  destruct ((0 <=? t) && (t <? Z.of_nat k))%Z; [discriminate |].
  destruct ((- Z.of_nat k <=? t) && (t <? 0))%Z; [discriminate |].
  now intros H; injection H as <-.
Qed.

Lemma index_put_raises (b k : nat) (target : list Z) :
  length target = b -> Exists (fun l => ~ label_in_range k l) target ->
  index_put (zeros b k) target 1 = Raise IndexError.
Proof.
  intros Hlen Hex. unfold index_put, zeros.
  rewrite repeat_length, Hlen, Nat.eqb_refl.
  revert b Hlen. induction target as [| t target IH]; intros b Hlen; [inversion Hex |].
  destruct b as [| b]; [discriminate |]. simpl. rewrite repeat_length.
  destruct (wrap_index k t) as [i | e] eqn:Hi; cbn [bind].
  - rewrite (IH ltac:(inversion Hex; subst;
                      [exfalso; eauto using wrap_index_range | assumption]) b)
      by (simpl in Hlen; lia).
    reflexivity.
  - now rewrite (wrap_index_raises k t e Hi).
Qed.

Lemma norms_rows3_shape (b k d : nat) (l : list R) :
  shape2 b k (norms (rows3 b k d l)).
Proof.
  apply norms_shape; unfold rows3, rows2.
  - now rewrite length_map, length_chunks.
  - apply Forall_map, Forall_forall. intros g _. apply length_chunks.
Qed.

Lemma argmax_rows_total (b k : nat) (v_mag : list (list R)) :
  shape2 b k v_mag -> k <> 0%nat -> exists pred, mapM argmax v_mag = Ok pred.
Proof.
  intros [_ Hrows] Hk.
  destruct (mapM_total argmax (fun _ => True) v_mag) as (pred & Hpred & _);
    [| eauto].
  eapply Forall_impl; [| exact Hrows].
  intros [| x row] Hrow; simpl in *; [congruence | eauto].
Qed.

(** A label that indexes no class, from the front or from the end,
    raises IndexError when [T_c] is filled (line 125). *)
Theorem label_out_of_range_raises {Layers : Type} (self : Model Layers) (args : Args)
  (capsule_input : tensor) (target : list Z) (reconstructs : list (list R))
  (b k d : nat) :
  shape capsule_input = [b; k; d] ->
  (2 <= b)%nat -> (2 <= k)%nat -> d <> 1%nat ->
  length target = b ->
  Exists (fun l => ~ (- Z.of_nat k <= l < Z.of_nat k)%Z) target ->
  calculate_loss self args capsule_input target reconstructs = Raise IndexError.
Proof.
  intros Hshape Hb Hk Hd Hlen Hex. unfold calculate_loss, calculate_loss_at.
  rewrite squeeze_noop by (rewrite Hshape; repeat constructor; lia).
  unfold rank3_view. rewrite Hshape. cbn [shape_index nth_error bind].
  change (tmap (fun v => sqrt (sum_list (map (fun x => x ^ 2) v)))
               (rows3 b k d (data capsule_input)))
    with (norms (rows3 b k d (data capsule_input))).
  destruct (argmax_rows_total b k _ (norms_rows3_shape b k d (data capsule_input)))
    as (pred & Hpred); [lia |].
  rewrite Hpred; cbn [bind].
  now rewrite (index_put_raises b k target Hlen Hex).
Qed.

Lemma label_out_of_range_raises_witness :
  calculate_loss example_model example_args example_capsules [0; 2]%Z
    example_reconstructs = Raise IndexError.
Proof.
  apply (label_out_of_range_raises example_model example_args example_capsules
           [0; 2]%Z example_reconstructs 2 2 2 eq_refl); try lia; try reflexivity.
  apply Exists_cons_tl, Exists_cons_hd. simpl. lia.
Defined.

(** ** Negative labels (line 125) *)

Lemma wrap_index_from_end (k : nat) (t : Z) :
  (- Z.of_nat k <= t)%Z -> wrap_index k (from_end k t) = wrap_index k t.
Proof.
  intros Ht. unfold from_end. destruct (Z.ltb_spec t 0) as [Hneg | Hpos];
    [| reflexivity].
  unfold wrap_index.
  destruct (Z.leb_spec 0 (t + Z.of_nat k)); [| lia].
  destruct (Z.ltb_spec (t + Z.of_nat k) (Z.of_nat k)); [| lia].
  destruct (Z.leb_spec 0 t); [lia |].
  destruct (Z.leb_spec (- Z.of_nat k) t); [| lia].
  destruct (Z.ltb_spec t 0); [| lia].
  reflexivity.
Qed.

Lemma index_put_from_end (b k : nat) (target : list Z) (v : R) :
  Forall (fun l => (- Z.of_nat k <= l)%Z) target ->
  index_put (zeros b k) (map (from_end k) target) v = index_put (zeros b k) target v.
Proof.
  intros Ht. unfold index_put, zeros. rewrite length_map.
  destruct (_ =? _)%nat; [| reflexivity].
  generalize b. clear b.
  induction Ht as [| t target Ht _ IH]; intros [| b]; simpl; try reflexivity.
  now rewrite repeat_length, (wrap_index_from_end k t Ht), IH.
Qed.

(** A negative label counts classes from the end, as Python indices
    do: with [k] classes, label [-j] (down to [-k]) is taken for class
    [k - j], silently, and the run returns what it returns for that
    class. *)
Theorem negative_label_counts_from_end {Layers : Type} (self : Model Layers)
  (args : Args) (capsule_input : tensor) (target : list Z)
  (reconstructs : list (list R)) (k : nat) :
  shape_index (shape capsule_input) 1 = Ok k ->
  Forall (fun l => (- Z.of_nat k <= l)%Z) target ->
  calculate_loss self args capsule_input (map (from_end k) target) reconstructs
  = calculate_loss self args capsule_input target reconstructs.
Proof.
  intros Hk Ht. unfold calculate_loss, calculate_loss_at.
  destruct (shape_index (shape capsule_input) 0) as [bs |]; cbn [bind];
    [| reflexivity].
  rewrite Hk; cbn [bind].
  destruct (rank3_view (squeeze capsule_input)) as [[d caps] |]; cbn [bind];
    [| reflexivity].
  destruct (mapM argmax _) as [pred |]; cbn [bind]; [| reflexivity].
  now rewrite (index_put_from_end bs k target 1 Ht).
Qed.

Lemma negative_label_counts_from_end_witness :
  calculate_loss example_model example_args example_capsules
    (map (from_end 2) [-2; -1]%Z) example_reconstructs
  = calculate_loss example_model example_args example_capsules [-2; -1]%Z
      example_reconstructs.
Proof.
  apply (negative_label_counts_from_end example_model example_args example_capsules
           [-2; -1]%Z example_reconstructs 2 eq_refl).
  repeat constructor; simpl; lia.
Defined.

(** ** The pooled node capsules (lines 77-78 and 96-97) *)

Lemma nth_error_map2 {A B C : Type} (f : A -> B -> C) (l : list A) (l' : list B)
  (i : nat) (c : C) :
  nth_error (map2 f l l') i = Some c ->
  exists a b, nth_error l i = Some a /\ nth_error l' i = Some b /\ c = f a b.
Proof.
  revert l' i; induction l as [| a l IH]; intros [| b l'] [| i] H; simpl in *;
    try discriminate.
  - injection H as <-. exists a, b. auto.
  - now apply IH.
Qed.

(** What a run of the pooling stage has computed. *)
Lemma forward_pool_inv (attention : list (list (list R)) -> list (list R))
  (adj : list (list (list R))) (hidden : list (list (list (list R)))) (p : pooled) :
  forward_pool attention adj hidden = Ok p ->
  node_masks adj = Ok (p_masks p) /\
  p_number_of_nodes p = number_of_nodes (p_masks p) /\
  p_hidden p = reweight hidden (p_attn p) (p_number_of_nodes p) /\
  Forall2 (fun m_g w_g =>
             exists a_g, length a_g = length m_g /\ w_g = softmax (map2 fill a_g m_g))
          (p_masks p) (p_attn p).
Proof.
  unfold forward_pool, attention_weights. intros H.
  bind_inv H. bind_inv H. bind_inv E0. injection E0 as <-. injection H as <-.
  simpl. split; [exact E |]. split; [reflexivity |]. split; [reflexivity |].
  apply masked_fill_rows in E1. clear E.
  induction E1 as [| m_g f_g masks filled (a_g & Hlen & ->) _ IH]; simpl;
    constructor; eauto.
Qed.

(** In a graph with a valid node, a node whose mask is 0 is pooled to
    zero: every entry of its re-weighted capsules is exactly 0. *)
Theorem masked_nodes_pool_to_zero
  (attention : list (list (list R)) -> list (list R))
  (adj : list (list (list R))) (hidden : list (list (list (list R)))) (p : pooled) :
  forward_pool attention adj hidden = Ok p ->
  forall g masks_g h_g i h_n,
    nth_error (p_masks p) g = Some masks_g ->
    Exists (fun m => m <> 0) masks_g ->
    nth_error masks_g i = Some 0 ->
    nth_error (p_hidden p) g = Some h_g ->
    nth_error h_g i = Some h_n ->
    Forall (Forall (fun v => v = Fin 0)) h_n.
Proof.
  intros H g masks_g h_g i h_n Hg Hvalid Hi Hh Hn.
  destruct (forward_pool_inv _ _ _ _ H) as (_ & _ & Hhid & Hrows).
  rewrite Hhid in Hh. unfold reweight in Hh.
  apply nth_error_map3 in Hh. destruct Hh as (hid_g & attn_g & n & _ & Ha & _ & ->).
  apply nth_error_map2 in Hn. destruct Hn as (x_n & a & _ & Hai & ->).
  destruct (Forall2_nth_error _ _ _ Hrows g masks_g attn_g Hg Ha) as (a_g & Hlen & ->).
  pose proof (softmax_denominator_pos a_g masks_g Hlen Hvalid) as Hpos.
  rewrite (softmax_filled a_g masks_g (Rgt_not_eq _ _ Hpos)) in Hai.
  destruct (softmax_weights (sum_list (map wreal (map2 fill a_g masks_g))) a_g masks_g Hlen)
    as [Hzero _].
  rewrite (Forall2_nth_error _ _ _ Hzero i 0 a Hi Hai eq_refl).
  apply Forall_tmap. intros x. simpl. f_equal. ring.
Qed.

Lemma masked_nodes_pool_to_zero_witness :
  exists p,
    forward_pool (fun _ => [[0; 0; 0]]) adj_isolated hidden_ones = Ok p /\
    forall h_g h_n,
      nth_error (p_hidden p) 0 = Some h_g -> nth_error h_g 2 = Some h_n ->
      Forall (Forall (fun v => v = Fin 0)) h_n.
Proof.
  eexists. split; [reflexivity |]. intros h_g h_n Hh Hn.
  eapply (masked_nodes_pool_to_zero (fun _ => [[0; 0; 0]]) adj_isolated hidden_ones
            _ eq_refl 0%nat _ h_g 2%nat h_n eq_refl); [| | exact Hh | exact Hn].
  - simpl. apply Exists_cons_hd. rewrite Rmax_0_1, Rmax_1_0. lra.
  - simpl. now rewrite !Rmax_0_0.
Defined.

Lemma masks_nonneg (adj_g : list (list R)) (masks_g : list R) :
  Forall (Forall (fun a => 0 <= a)) adj_g -> mapM max_list adj_g = Ok masks_g ->
  Forall (fun m => 0 <= m) masks_g.
Proof.
  intros Hpos H. apply Forall_forall. intros m Hm.
  destruct (mapM_In _ _ _ H m Hm) as (row & Hrow & Hmax).
  rewrite Forall_forall in Hpos. eapply max_list_nonneg; eauto.
Qed.

(** Without negative adjacency entries, [number_of_nodes] is never
    negative, and it is 0 exactly for the graphs without a valid node. *)
Theorem number_of_nodes_zero_iff_no_valid_node
  (adj : list (list (list R))) (masks : list (list R)) :
  node_masks adj = Ok masks ->
  Forall (Forall (Forall (fun a => 0 <= a))) adj ->
  Forall2 (fun masks_g n => 0 <= n /\ (n = 0 <-> Forall (fun m => m = 0) masks_g))
          masks (number_of_nodes masks).
Proof.
  unfold number_of_nodes. intros H Hadj. apply node_masks_rows in H.
  induction H as [| adj_g masks_g adj masks Hg _ IH]; simpl; constructor.
  - pose proof (masks_nonneg adj_g masks_g (Forall_inv Hadj) Hg) as Hpos.
    split; [now apply sum_list_nonneg |]. split.
    + now apply sum_list_zero_inv.
    + apply sum_list_zero.
  - apply IH. now apply Forall_inv_tail in Hadj.
Qed.

Lemma number_of_nodes_zero_iff_no_valid_node_witness :
  exists masks,
    node_masks adj_isolated = Ok masks /\
    Forall2 (fun masks_g n => 0 <= n /\ (n = 0 <-> Forall (fun m => m = 0) masks_g))
            masks (number_of_nodes masks).
Proof.
  eexists. split; [reflexivity |].
  apply (number_of_nodes_zero_iff_no_valid_node adj_isolated _ eq_refl).
  unfold adj_isolated. repeat constructor; lra.
Defined.

Lemma forward_pool_attn (attention : list (list (list R)) -> list (list R))
  (adj : list (list (list R))) (hidden : list (list (list (list R)))) (p : pooled) :
  forward_pool attention adj hidden = Ok p ->
  p_attn p = map softmax (tmap2 fill (attention (tmap (@concat R) hidden)) (p_masks p)).
Proof.
  unfold forward_pool, attention_weights, masked_fill. intros H.
  bind_inv H. bind_inv H. bind_inv E0. injection E0 as <-. injection H as <-.
  destruct (same_length2 _ _); [| discriminate]. now injection E1 as <-.
Qed.

Lemma masks_binary (adj_g : list (list R)) (masks_g : list R) :
  Forall (Forall (fun a => a = 0 \/ a = 1)) adj_g -> mapM max_list adj_g = Ok masks_g ->
  Forall (fun m => m = 0 \/ m = 1) masks_g.
Proof.
  intros Hb H. apply Forall_forall. intros m Hm.
  destruct (mapM_In _ _ _ H m Hm) as (row & Hrow & Hmax).
  rewrite Forall_forall in Hb. exact (mask_binary row m (Hb row Hrow) Hmax).
Qed.

(** With the same logit [a] on every valid node, the denominator of the
    softmax is the number of valid nodes times [exp a]. *)
Lemma uniform_denominator (a : R) (logits masks_g : list R) :
  Forall2 (fun x m => m <> 0 -> x = a) logits masks_g ->
  sum_list (map wreal (map2 fill logits masks_g)) = INR (count_valid masks_g) * exp a.
Proof.
  unfold count_valid, is_valid.
  induction 1 as [| x m logits masks_g Hx _ IH]; simpl; [lra |].
  rewrite IH. unfold fill. destruct (Req_dec_T m 0) as [-> | Hne]; simpl; [lra |].
  rewrite (Hx Hne).
  destruct (length (filter _ masks_g)) eqn:Hc; simpl; [lra |].
  destruct n; simpl; lra.
Qed.

(** Equal attention on the valid nodes of a graph with 0/1 adjacency
    leaves their capsules as they were: the weight [1 / n] of each of
    the [n] valid nodes is undone by the factor [number_of_nodes]. *)
Theorem uniform_attention_keeps_valid_nodes
  (attention : list (list (list R)) -> list (list R))
  (adj : list (list (list R))) (hidden : list (list (list (list R)))) (p : pooled) :
  forward_pool attention adj hidden = Ok p ->
  Forall (Forall (Forall (fun a => a = 0 \/ a = 1))) adj ->
  forall g logits_g masks_g a i hid_g x_n h_g h_n,
    nth_error (attention (tmap (@concat R) hidden)) g = Some logits_g ->
    nth_error (p_masks p) g = Some masks_g ->
    Forall2 (fun x m => m <> 0 -> x = a) logits_g masks_g ->
    nth_error masks_g i = Some 1 ->
    nth_error hidden g = Some hid_g -> nth_error hid_g i = Some x_n ->
    nth_error (p_hidden p) g = Some h_g -> nth_error h_g i = Some h_n ->
    h_n = tmap Fin x_n.
Proof.
  intros H Hadj g logits_g masks_g a i hid_g x_n h_g h_n Hlog Hg Huni Hi Hhid Hx Hh Hn.
  destruct (forward_pool_inv _ _ _ _ H) as (Hmasks & Hnon & Hhidden & _).
  pose proof (forward_pool_attn _ _ _ _ H) as Hattn.
  (* the masks of graph [g] are 0 or 1 *)
  assert (Hbin : Forall (fun m => m = 0 \/ m = 1) masks_g).
  { apply node_masks_rows in Hmasks.
    destruct (nth_error adj g) as [adj_g |] eqn:Hadj_g.
    - eapply masks_binary; [| exact (Forall2_nth_error _ _ _ Hmasks g adj_g masks_g Hadj_g Hg)].
      rewrite Forall_forall in Hadj. apply Hadj. eapply nth_error_In; eassumption.
    - apply Forall2_length in Hmasks. apply nth_error_None in Hadj_g.
      assert (g < length (p_masks p))%nat by (apply nth_error_Some; congruence). lia. }
  (* the re-weighted capsules of node [i] *)
  rewrite Hhidden in Hh. unfold reweight in Hh.
  apply nth_error_map3 in Hh.
  destruct Hh as (hid_g' & attn_g & n & Hhid' & Ha & Hnn & ->).
  rewrite Hhid in Hhid'. injection Hhid' as <-.
  apply nth_error_map2 in Hn. destruct Hn as (x_n' & w & Hx' & Hw & ->).
  rewrite Hx in Hx'. injection Hx' as <-.
  (* its factor [number_of_nodes] *)
  rewrite Hnon in Hnn. unfold number_of_nodes in Hnn. rewrite nth_error_map, Hg in Hnn.
  injection Hnn as <-. rewrite (sum_binary_count masks_g Hbin).
  (* its attention weight *)
  rewrite Hattn, nth_error_map in Ha. unfold tmap2 in Ha.
  destruct (nth_error (map2 (map2 fill) _ _) g) as [f_g |] eqn:Hf; [| discriminate].
  injection Ha as <-. apply nth_error_map2 in Hf.
  destruct Hf as (l' & m' & Hl' & Hm' & ->).
  rewrite Hlog in Hl'. injection Hl' as <-. rewrite Hg in Hm'. injection Hm' as <-.
  assert (Hvalid : Exists (fun m => m <> 0) masks_g).
  { apply Exists_exists. exists 1. split; [eapply nth_error_In; eassumption | lra]. }
  pose proof (softmax_denominator_pos logits_g masks_g (Forall2_length Huni) Hvalid) as Hpos.
  rewrite (softmax_filled logits_g masks_g (Rgt_not_eq _ _ Hpos)) in Hw.
  rewrite (uniform_denominator a logits_g masks_g Huni) in Hw, Hpos.
  rewrite !nth_error_map in Hw.
  destruct (nth_error (map2 fill logits_g masks_g) i) as [f |] eqn:Hfi; [| discriminate].
  injection Hw as <-. apply nth_error_map2 in Hfi.
  destruct Hfi as (x & m & Hxi & Hmi & ->).
  rewrite Hi in Hmi. injection Hmi as <-.
  assert (Hxa : x = a).
  { apply (Forall2_nth_error _ _ _ Huni i x 1 Hxi Hi). lra. }
  subst x. unfold fill. destruct (Req_dec_T 1 0) as [H10 | _]; [lra |]. simpl.
  unfold tmap. apply map_ext. intros row. apply map_ext. intros y. f_equal.
  pose proof (exp_pos a) as He.
  assert (Hc : INR (count_valid masks_g) <> 0).
  { intros Hc. rewrite Hc in Hpos. lra. }
  field. split; [lra | exact Hc].
Qed.

Lemma uniform_attention_keeps_valid_nodes_witness :
  exists p,
    forward_pool (fun _ => [[0; 0; 0]]) adj_isolated hidden_ones = Ok p /\
    forall h_g h_n,
      nth_error (p_hidden p) 0 = Some h_g -> nth_error h_g 1 = Some h_n ->
      h_n = tmap Fin [[1]].
Proof.
  eexists. split; [reflexivity |]. intros h_g h_n Hh Hn.
  assert (Hadj : Forall (Forall (Forall (fun a => a = 0 \/ a = 1))) adj_isolated).
  { unfold adj_isolated. repeat (apply Forall_cons || apply Forall_nil); auto. }
  refine (uniform_attention_keeps_valid_nodes (fun _ => [[0; 0; 0]]) adj_isolated
            hidden_ones _ eq_refl Hadj 0%nat [0; 0; 0] _ 0 1%nat _ [[1]] h_g h_n
            eq_refl eq_refl _ _ eq_refl eq_refl Hh Hn).
  - repeat constructor.
  - simpl. now rewrite Rmax_1_0, Rmax_1_0.
Defined.

(** ** Padding and the attention (line 96) *)

Lemma map2_snoc {A B C : Type} (f : A -> B -> C) (l : list A) (l' : list B)
  (x : A) (y : B) :
  length l = length l' -> map2 f (l ++ [x]) (l' ++ [y]) = map2 f l l' ++ [f x y].
Proof.
  revert l'; induction l as [| a l IH]; intros [| b l'] Hlen; simpl in *;
    try discriminate; [reflexivity |].
  f_equal. apply IH. lia.
Qed.

Lemma sum_list_snoc (l : list R) (x : R) : sum_list (l ++ [x]) = sum_list l + x.
Proof. induction l as [| y l IH]; simpl; [lra |]. rewrite IH. lra. Qed.

(** One more masked node at the end of a graph with a valid node: the
    weights of the other nodes stay, the new node weighs 0. *)
Lemma softmax_padded (a m : list R) (x : R) :
  length a = length m -> Exists (fun y => y <> 0) m ->
  softmax (map2 fill (a ++ [x]) (m ++ [0])) = softmax (map2 fill a m) ++ [Fin 0].
Proof.
  intros Hlen Hvalid.
  pose proof (softmax_denominator_pos a m Hlen Hvalid) as Hpos.
  assert (Hvalid' : Exists (fun y => y <> 0) (m ++ [0])).
  { apply Exists_app. now left. }
  assert (Hlen' : length (a ++ [x]) = length (m ++ [0])).
  { rewrite !length_app. simpl. lia. }
  pose proof (softmax_denominator_pos _ _ Hlen' Hvalid') as Hpos'.
  rewrite (softmax_filled _ _ (Rgt_not_eq _ _ Hpos')).
  rewrite (softmax_filled _ _ (Rgt_not_eq _ _ Hpos)).
  rewrite (map2_snoc fill a m x 0 Hlen), !map_app. simpl.
  rewrite wreal_fill_masked, sum_list_snoc, Rplus_0_r.
  f_equal. f_equal. f_equal. unfold Rdiv. ring.
Qed.

Lemma attention_rows_padded (attn masks : list (list R)) (xs : list R) :
  same_length2 attn masks = true -> length xs = length attn ->
  Forall (Exists (fun m => m <> 0)) masks ->
  same_length2 (map2 (fun a x => a ++ [x]) attn xs) (map (fun m => m ++ [0]) masks)
  = true /\
  map softmax (tmap2 fill (map2 (fun a x => a ++ [x]) attn xs)
                     (map (fun m => m ++ [0]) masks))
  = map (fun w_g => w_g ++ [Fin 0]) (map softmax (tmap2 fill attn masks)).
Proof.
  unfold tmap2. revert masks xs.
  induction attn as [| a attn IH]; intros [| m masks] [| x xs] Hs Hlen Hvalid;
    simpl in *; try discriminate; [split; reflexivity |].
  apply andb_prop in Hs. destruct Hs as [Hl Hs]. apply Nat.eqb_eq in Hl.
  destruct (IH masks xs Hs ltac:(lia) (Forall_inv_tail Hvalid)) as [IH1 IH2].
  split.
  - rewrite IH1, !length_app, Hl. simpl. now rewrite Nat.eqb_refl.
  - rewrite IH2. f_equal. apply softmax_padded; [exact Hl | exact (Forall_inv Hvalid)].
Qed.

(** Padding changes no attention weight: appending to every graph one
    more node whose mask is 0, whatever its logit, leaves the weights
    of the nodes that were there and gives the new node weight 0
    (every graph having a valid node). *)
Theorem padding_keeps_attention_weights (attn masks : list (list R))
  (w : list (list fval)) (xs : list R) :
  attention_weights attn masks = Ok w ->
  Forall (Exists (fun m => m <> 0)) masks ->
  length xs = length attn ->
  attention_weights (map2 (fun a x => a ++ [x]) attn xs)
                    (map (fun m => m ++ [0]) masks)
  = Ok (map (fun w_g => w_g ++ [Fin 0]) w).
Proof.
  unfold attention_weights, masked_fill. intros H Hvalid Hlen.
  destruct (same_length2 attn masks) eqn:Hs; [| discriminate].
  simpl in H. injection H as <-.
  destruct (attention_rows_padded attn masks xs Hs Hlen Hvalid) as [Hs' Hw].
  rewrite Hs'. simpl. f_equal. exact Hw.
Qed.

Lemma padding_keeps_attention_weights_witness :
  exists w,
    attention_weights [[0.3; -1]] [[1; 1]] = Ok w /\
    attention_weights [[0.3; -1; 5]] [[1; 1; 0]] = Ok (map (fun w_g => w_g ++ [Fin 0]) w).
Proof.
  eexists. split; [reflexivity |].
  apply (padding_keeps_attention_weights [[0.3; -1]] [[1; 1]] _ [5] eq_refl);
    [| reflexivity].
  repeat constructor. lra.
Defined.

(** ** What [__init__] wires together (lines 26-65) *)

Lemma list_sum_repeat (x n : nat) : list_sum (repeat x n) = (x * n)%nat.
Proof. induction n as [| n IH]; simpl; lia. Qed.

Lemma features_width_embeddings (e : nat) (num_features : list nat) :
  features_width (map (fun d => (d, e)) num_features) = (e * length num_features)%nat.
Proof.
  unfold features_width. induction num_features as [| d l IH]; simpl; [lia |].
  rewrite IH. lia.
Qed.

Lemma hidden_width_init_gcn (args : Args) (gcn_input_dim : nat) :
  hidden_width (_init_gcn args gcn_input_dim)
  = (node_embedding_size args * num_gcn_channels args
     * Nat.max 1 (num_gcn_layers args))%nat.
Proof.
  unfold hidden_width, _init_gcn. simpl. rewrite map_repeat, list_sum_repeat. simpl.
  set (h := (node_embedding_size args * num_gcn_channels args)%nat).
  destruct (num_gcn_layers args) as [| n]; simpl; rewrite ?Nat.sub_0_r; nia.
Qed.

(** The GCN stack [__init__] builds always has a first layer, so
    [max(1, num_gcn_layers)] layers.  The first takes the width of the
    concatenated embeddings, every layer gives
    [node_embedding_size * num_gcn_channels] features, and each layer
    takes what the one before gives. *)
Theorem gcn_layers_chain (args : Args) (num_features : list nat)
  (num_classes recon_dim : nat)
  (w1 : nat -> nat -> R) (b1 : nat -> R) (w2 : nat -> nat -> R) (b2 : nat -> R) :
  let self := Model_init args num_features num_classes recon_dim w1 b1 w2 b2 in
  let gcn_layers := mod_gcn_layers (layers self) in
  let hidden_dim := (node_embedding_size args * num_gcn_channels args)%nat in
  length gcn_layers = Nat.max 1 (num_gcn_layers args) /\
  nth_error gcn_layers 0
    = Some (features_width (mod_embeddings (layers self)), hidden_dim) /\
  Forall (fun l => snd l = hidden_dim) gcn_layers /\
  (forall i l l', nth_error gcn_layers i = Some l ->
                  nth_error gcn_layers (S i) = Some l' -> snd l = fst l').
Proof.
  simpl. unfold _init_gcn.
  set (hidden_dim := (node_embedding_size args * num_gcn_channels args)%nat).
  split; [cbn [length]; rewrite repeat_length;
          destruct (num_gcn_layers args); simpl; lia |].
  split; [simpl; now rewrite features_width_embeddings |].
  split.
  - constructor; [reflexivity |]. apply Forall_forall. intros l Hl.
    apply repeat_spec in Hl. now subst l.
  - intros i l l' Hl Hl'. simpl in Hl'.
    apply nth_error_In, repeat_spec in Hl'. subst l'. simpl.
    destruct i as [| i]; simpl in Hl.
    + now injection Hl as <-.
    + apply nth_error_In, repeat_spec in Hl. now subst l.
Qed.

(** The attention scorer and the first capsule layer are sized by
    [num_gcn_layers], the hidden representation by the layers actually
    built.  The sizes agree when [num_gcn_layers >= 1]; with
    [num_gcn_layers = 0] one layer is built all the same and they agree
    only if that layer has no output at all. *)
Theorem attention_size_matches_hidden_width (args : Args) (num_features : list nat)
  (num_classes recon_dim : nat)
  (w1 : nat -> nat -> R) (b1 : nat -> R) (w2 : nat -> nat -> R) (b2 : nat -> R) :
  let self := Model_init args num_features num_classes recon_dim w1 b1 w2 b2 in
  (mod_attention (layers self) = hidden_width (mod_gcn_layers (layers self)) <->
   (1 <= num_gcn_layers args)%nat \/
   (node_embedding_size args * num_gcn_channels args = 0)%nat) /\
  (fst (fst (fst (mod_graph_capsule (layers self))))
   = (num_gcn_channels args * length (mod_gcn_layers (layers self)))%nat <->
   (1 <= num_gcn_layers args)%nat \/ num_gcn_channels args = 0%nat).
Proof.
  cbn [Model_init _init_capsules _init_reconstruction_layers layers mod_attention
       mod_gcn_layers mod_graph_capsule fst].
  rewrite hidden_width_init_gcn. unfold _init_gcn. cbn [length].
  rewrite repeat_length.
  set (e := node_embedding_size args). set (c := num_gcn_channels args).
  destruct (num_gcn_layers args) as [| n]; cbn [Nat.max Nat.sub];
    rewrite ?Nat.sub_0_r; split; split; intros H; nia.
Qed.

Lemma nn_Linear_wf (n_in n_out : nat) (w : nat -> nat -> R) (b : nat -> R) :
  wf_linear (nn_Linear n_in n_out w b) n_out /\
  in_features (nn_Linear n_in n_out w b) = n_in.
Proof.
  unfold wf_linear, nn_Linear; simpl. now rewrite !length_map, length_seq.
Qed.

(** The decoder [__init__] builds fits the class capsules: on a batch
    of two graphs or more, class capsules of the configured shape
    ([num_classes >= 2] capsules of [graph_embedding_size <> 1]
    entries), labels that index a class and one target of
    [recon_dim >= 1] entries, none negative, per graph, the loss
    returns. *)
Theorem init_model_loss_returns (args : Args) (num_features : list nat)
  (num_classes recon_dim : nat)
  (w1 : nat -> nat -> R) (b1 : nat -> R) (w2 : nat -> nat -> R) (b2 : nat -> R)
  (capsule_input : tensor) (target : list Z) (reconstructs : list (list R)) (b : nat) :
  let self := Model_init args num_features num_classes recon_dim w1 b1 w2 b2 in
  shape capsule_input = [b; num_classes; graph_embedding_size args] ->
  wf_tensor capsule_input ->
  (2 <= b)%nat -> (2 <= num_classes)%nat -> graph_embedding_size args <> 1%nat ->
  recon_dim <> 0%nat ->
  length target = b -> Forall (label_in_range num_classes) target ->
  shape2 b recon_dim reconstructs ->
  Forall (Forall (fun x => 0 <= x)) reconstructs ->
  exists loss margin_loss reconstruction_loss pred,
    calculate_loss self args capsule_input target reconstructs
    = Ok (loss, margin_loss, reconstruction_loss, pred).
Proof.
  intros self Hshape Hwf Hb Hk Hd Hr Hlen Hrange Hrec Hpos.
  destruct (calculate_loss_at_total epsilon 1e-5 self args b num_classes
              (graph_embedding_size args)
              ((node_embedding_size args * length num_features * 2) / 3) recon_dim
              capsule_input target reconstructs epsilon_pos)
    as ([[[l m] r] p] & H).
  - constructor; try assumption; apply nn_Linear_wf.
  - exists l, m, r, p. exact H.
Qed.

Lemma init_model_loss_returns_witness :
  exists loss margin recon pred,
    calculate_loss
      (Model_init example_args [3%nat] 2 3 (fun _ _ => 0) (fun _ => 0)
                  (fun _ _ => 0) (fun _ => 0))
      example_args example_capsules example_target example_reconstructs
    = Ok (loss, margin, recon, pred).
Proof.
  apply (init_model_loss_returns example_args [3%nat] 2 3 (fun _ _ => 0) (fun _ => 0)
           (fun _ _ => 0) (fun _ => 0) example_capsules example_target
           example_reconstructs 2);
    try reflexivity; try lia; try apply example_reconstructs_ok.
  - simpl. lia.
  - unfold example_target, label_in_range. repeat constructor; simpl; lia.
Defined.

Lemma map2_map_map {A B C D : Type} (f : B -> C -> D) (g : A -> B) (h : A -> C)
  (l : list A) :
  map2 f (map g l) (map h l) = map (fun x => f (g x) (h x)) l.
Proof. induction l as [| a l IH]; simpl; [reflexivity |]. now rewrite IH. Qed.

(** With [gcn_input_dim <= 1] (one feature channel embedded in one
    dimension) the hidden layer of the decoder has [int(2/3) = 0]
    units: the reconstruction is the sigmoid of the output biases,
    whatever capsule is decoded. *)
Theorem decoder_without_hidden_units (args : Args) (num_features : list nat)
  (num_classes recon_dim : nat)
  (w1 : nat -> nat -> R) (b1 : nat -> R) (w2 : nat -> nat -> R) (b2 : nat -> R)
  (capsule : list R) :
  (node_embedding_size args * length num_features <= 1)%nat ->
  decode (Model_init args num_features num_classes recon_dim w1 b1 w2 b2) capsule
  = map (fun i => sigmoid (b2 i)) (seq 0 recon_dim).
Proof.
  intros Hdim. unfold decode, affine. cbn [Model_init _init_capsules
    _init_reconstruction_layers reconstruction_layer_1 reconstruction_layer_2
    nn_Linear weight bias].
  replace ((node_embedding_size args * length num_features * 2) / 3)%nat with 0%nat
    by (symmetry; apply Nat.div_small; lia).
  cbn [seq map map2]. rewrite map2_map_map, map_map.
  apply map_ext. intros i. f_equal. unfold dot. simpl. lra.
Qed.

Lemma decoder_without_hidden_units_witness :
  decode (Model_init (mkArgs 1 2 1 2 2 0.5 0.1) [3%nat] 2 3
            (fun _ _ => 1) (fun _ => 1) (fun _ _ => 1) (fun _ => 0.2)) [0.3; 0.4]
  = map (fun i => sigmoid 0.2) (seq 0 3).
Proof.
  apply (decoder_without_hidden_units (mkArgs 1 2 1 2 2 0.5 0.1) [3%nat] 2 3
           (fun _ _ => 1) (fun _ => 1) (fun _ _ => 1) (fun _ => 0.2) [0.3; 0.4]).
  simpl. lia.
Defined.

(** ** The margin loss and the auxiliary task (lines 118-128) *)

(** The margin loss is a matter of capsules, labels and [lambda_val]
    only: runs that agree on these return the same margin loss,
    whatever the reconstruction targets, the decoder and [reg_scale]. *)
Theorem margin_loss_ignores_reconstruction {Layers1 Layers2 : Type}
  (self1 : Model Layers1) (self2 : Model Layers2) (args1 args2 : Args)
  (capsule_input : tensor) (target : list Z)
  (reconstructs1 reconstructs2 : list (list R))
  (loss1 margin1 recon1 loss2 margin2 recon2 : R) (pred1 pred2 : list nat) :
  lambda_val args1 = lambda_val args2 ->
  calculate_loss self1 args1 capsule_input target reconstructs1
    = Ok (loss1, margin1, recon1, pred1) ->
  calculate_loss self2 args2 capsule_input target reconstructs2
    = Ok (loss2, margin2, recon2, pred2) ->
  margin1 = margin2.
Proof.
  intros Hlam H1 H2. apply calculate_loss_at_inv in H1, H2.
  destruct H1 as (bs & nc & ? & ? & ? & T1 & ? & Hb1 & Hn1 & _ & _ & HT1 & _ & Hm1 & _).
  destruct H2 as (bs' & nc' & ? & ? & ? & T2 & ? & Hb2 & Hn2 & _ & _ & HT2 & _ & Hm2 & _).
  rewrite Hb1 in Hb2. injection Hb2 as <-. rewrite Hn1 in Hn2. injection Hn2 as <-.
  rewrite HT1 in HT2. injection HT2 as <-. rewrite Hlam in Hm1. congruence.
Qed.

Lemma margin_loss_ignores_reconstruction_witness :
  exists l1 m1 r1 p1 l2 m2 r2 p2,
    calculate_loss example_model example_args example_capsules example_target
      example_reconstructs = Ok (l1, m1, r1, p1) /\
    calculate_loss
      (mkModel unit (mkArgs 2 2 1 2 2 0.5 7) [3%nat] 2 3 2 tt (zero_linear 2 1)
               (zero_linear 1 3) false)
      (mkArgs 2 2 1 2 2 0.5 7) example_capsules example_target scaling_reconstructs
    = Ok (l2, m2, r2, p2) /\
    m1 = m2.
Proof.
  destruct (example_run example_args example_capsules example_reconstructs eq_refl eq_refl
              example_reconstructs_ok) as (l1 & m1 & r1 & p1 & H1).
  destruct (example_run (mkArgs 2 2 1 2 2 0.5 7) example_capsules scaling_reconstructs
              eq_refl eq_refl scaling_reconstructs_ok) as (l2 & m2 & r2 & p2 & H2).
  exists l1, m1, r1, p1, l2, m2, r2, p2. split; [exact H1 |]. split; [exact H2 |].
  refine (margin_loss_ignores_reconstruction _ _ example_args (mkArgs 2 2 1 2 2 0.5 7)
            _ _ _ _ _ _ _ _ _ _ _ _ eq_refl H1 H2).
Defined.
